(** * hot_fair_utilities.inference.predict: batched inference over PNG tiles

    A shallow embedding of [src/hot_fair_utilities/inference/predict.py]:
    the two functions [process_batch] and [predict], the Python and numpy
    operations they call, a finite-map file system, and the thread pool as a
    set of task automata driven by an arbitrary scheduler. *)

From Stdlib Require Import ZArith QArith Qround String Ascii List Lia Permutation.
From stdpp Require Import base gmap sets list strings relations.

Local Open Scope Z_scope.

(** ** Exceptions raised along the way *)

Inductive exn : Type :=
| ValueError (msg : string)       (* numpy: bad reshape, empty argmax *)
| AxisError                       (* numpy: axis out of bounds *)
| IndexError                      (* numpy: preds[idx] past the first axis *)
| FileExistsError (path : string) (* os.makedirs: [path] is a regular file *)
| NotADirectoryError (path : string) (* os.makedirs: the regular file [path]
                                        is in the way *)
| FileNotFoundError (path : string)  (* os.makedirs: the empty path *)
| ExternalError (msg : string).   (* anything a collaborator raises *)

(** ** Module constants (predict.py, lines 15-16) *)

Definition BATCH_SIZE : Z := 8.
Definition IMAGE_SIZE : Z := 256.

(** ** Python built-ins *)

Module Py.

(** [len(l)] *)
Definition len {A} (l : list A) : Z := Z.of_nat (length l).

(** [range(n)]: empty when [n <= 0]. *)
Definition range (n : Z) : list Z := map Z.of_nat (seq 0 (Z.to_nat n)).

(** [math.ceil(a / b)] with Python's true division; the quotient of two list
    lengths by a power of two is exact in binary floating point, so the
    rational quotient is what [math.ceil] sees. *)
Definition ceil_div (a b : Z) : Z := Qceiling (inject_Z a / inject_Z b).

(** Normalisation of one slice bound against a sequence of length [n]:
    negative bounds count from the end, everything is clamped to [0, n]. *)
Definition slice_index (n i : Z) : Z :=
  if i <? 0 then Z.max 0 (i + n) else Z.min i n.

(** [l[lo:hi]] *)
Definition slice {A} (l : list A) (lo hi : Z) : list A :=
  let lo' := slice_index (len l) lo in
  let hi' := slice_index (len l) hi in
  take (Z.to_nat (hi' - lo')) (drop (Z.to_nat lo') l).

(** [enumerate(l)] *)
Fixpoint enumerate_from {A} (i : Z) (l : list A) : list (Z * A) :=
  match l with
  | [] => []
  | x :: l' => (i, x) :: enumerate_from (i + 1) l'
  end.

Definition enumerate {A} (l : list A) : list (Z * A) := enumerate_from 0 l.

(** [s.split(sep)] for a one-character separator. *)
Fixpoint split (sep : ascii) (s : string) : list string :=
  match s with
  | EmptyString => [EmptyString]
  | String c s' =>
      if Ascii.eqb c sep then EmptyString :: split sep s'
      else match split sep s' with
           | h :: t => String c h :: t
           | [] => [String c EmptyString]
           end
  end.

(** [s.rfind(c)], with [None] for Python's -1. *)
Fixpoint rfind (c : ascii) (s : string) : option nat :=
  match s with
  | EmptyString => None
  | String a s' =>
      match rfind c s' with
      | Some i => Some (S i)
      | None => if Ascii.eqb a c then Some 0%nat else None
      end
  end.

(** [s.endswith(suffix)] *)
Fixpoint endswith (s suffix : string) : bool :=
  String.eqb s suffix ||
  match s with
  | EmptyString => false
  | String _ s' => endswith s' suffix
  end.

(** [PurePosixPath(path).name]: the last component that is neither empty
    nor ["."]; the empty string when there is none. *)
Definition path_name (path : string) : string :=
  List.last
    (List.filter (fun x => negb (String.eqb x "") && negb (String.eqb x "."))
       (split "/" path))
    EmptyString.

(** [Path(path).stem]:
    [i = name.rfind('.')], then [name[:i]] when [0 < i < len(name) - 1]
    and [name] otherwise. *)
Definition stem (path : string) : string :=
  let name := path_name path in
  match rfind "." name with
  | Some i =>
      if (0 <? i)%nat && (i <? String.length name - 1)%nat
      then substring 0 i name
      else name
  | None => name
  end.

End Py.

(** ** numpy arrays

    An array is its shape and a flat, row-major buffer read by position.
    Only the operations of [process_batch] are modelled. *)

Record ndarray (A : Type) : Type := NdArray {
  shape : list Z;
  item : Z -> A
}.
Arguments NdArray {A} _ _.
Arguments shape {A} _.
Arguments item {A} _ _.

Module Np.

Definition prod (dims : list Z) : Z := fold_right Z.mul 1 dims.

(** [a.size] *)
Definition size {A} (a : ndarray A) : Z := prod (shape a).

(** [a.reshape(-1, d1, ..., dk)]: the free first dimension is the size
    divided by the product of the others, when that division is exact. *)
Definition reshape_m1 {A} (a : ndarray A) (dims : list Z) : exn + ndarray A :=
  let known := prod dims in
  if (known =? 0) || negb (size a mod known =? 0)
  then inl (ValueError "cannot reshape array")
  else inr (NdArray (size a / known :: dims) (item a)).

(** The scan numpy's arg-max makes over one row, left to right from the
    running maximum [best] found at [besti]: a NaN ends the scan and stays
    the maximum; otherwise an element replaces the running maximum when it
    is not [<=] it (numpy tests [!(x <= best)], so that a NaN replaces
    it too). *)
Fixpoint argmax_from {A} (leb : A -> A -> bool) (isnan : A -> bool)
    (best : A) (besti : Z) (i : Z) (xs : list A) : Z :=
  match xs with
  | [] => besti
  | x :: xs' =>
      if isnan best then besti
      else if leb x best then argmax_from leb isnan best besti (i + 1) xs'
      else argmax_from leb isnan x i (i + 1) xs'
  end.

Definition argmax_row {A} (leb : A -> A -> bool) (isnan : A -> bool)
    (xs : list A) : option Z :=
  match xs with
  | [] => None
  | x :: xs' => Some (argmax_from leb isnan x 0 1 xs')
  end.

(** The [c]-long row of the buffer that starts at flat position [i * c]. *)
Definition row {A} (a : ndarray A) (c i : Z) : list A :=
  map (fun k => item a (i * c + k)) (Py.range c).

(** [np.argmax(a, axis=-1)] *)
Definition argmax_last {A} (leb : A -> A -> bool) (isnan : A -> bool)
    (a : ndarray A) : exn + ndarray Z :=
  match List.rev (shape a) with
  | [] => inl AxisError
  | c :: outer_rev =>
      if c <=? 0 then inl (ValueError "attempt to get argmax of an empty sequence")
      else inr (NdArray (List.rev outer_rev)
                  (fun i => match argmax_row leb isnan (row a c i) with
                            | Some k => k
                            | None => 0
                            end))
  end.

(** [np.expand_dims(a, axis=-1)] *)
Definition expand_dims_last {A} (a : ndarray A) : ndarray A :=
  NdArray (shape a ++ [1]) (item a).

(** The comparison [v > 0.5] of an integer array element with the float
    literal. *)
Definition gt_half (v : Z) : bool := negb (Qle_bool (inject_Z v) (1 # 2)).

(** [np.where(a > 0.5, 1, 0)] *)
Definition where_gt_half (a : ndarray Z) : ndarray Z :=
  NdArray (shape a) (fun i => if gt_half (item a i) then 1 else 0).

(** [a[idx]] for an integer [idx]: the sub-array at position [idx] of the
    first axis, negative positions counting from the end. *)
Definition getitem {A} (a : ndarray A) (idx : Z) : exn + ndarray A :=
  match shape a with
  | [] => inl IndexError
  | n :: inner =>
      let idx' := if idx <? 0 then idx + n else idx in
      if (0 <=? idx') && (idx' <? n)
      then inr (NdArray inner (fun i => item a (idx' * prod inner + i)))
      else inl IndexError
  end.

End Np.

(** ** The file system

    A finite map from path strings to entries; a directory is the entry
    stored at its own path.  There are no symbolic links and no
    permissions.  Relative paths
    start at the working directory, which like the root always exists and
    is not stored.  [os.makedirs] resolves its path component by component
    (repeated slashes, ["."] and [".."]); the helpers modelled from the
    spec take a path as it is written. *)

Inductive content : Type :=
| Mask (m : ndarray Z)                      (* a mask image written by [save_mask] *)
| GeoRaster (crs : string) (m : ndarray Z)  (* a raster carrying a CRS tag *)
| Blob (data : string).                     (* any other file *)

Inductive node : Type :=
| Dir
| File (c : content).

Abbreviation FS := (gmap string node).

Module Os.

(** The parts of [p] before and after its last ["/"]; [None] when [p] has
    no ["/"]. *)
Fixpoint rsplit_slash (p : string) : option (string * string) :=
  match p with
  | EmptyString => None
  | String c p' =>
      match rsplit_slash p' with
      | Some (h, t) => Some (String c h, t)
      | None => if Ascii.eqb c "/" then Some (EmptyString, p') else None
      end
  end.

(** Whether [name] matches the wildcard [pat], as
    [fnmatch.fnmatchcase(name, pat)] has it for a [pat] made of literal
    characters, ["*"] and ["?"]. *)
Fixpoint fnmatch (pat : string) (name : string) {struct pat} : bool :=
  match pat with
  | EmptyString => String.eqb name EmptyString
  | String p pat' =>
      if Ascii.eqb p "*" then
        (fix star (n : string) : bool :=
           fnmatch pat' n ||
           match n with
           | EmptyString => false
           | String _ n' => star n'
           end) name
      else
        match name with
        | EmptyString => false
        | String a name' =>
            (Ascii.eqb p "?" || Ascii.eqb a p) && fnmatch pat' name'
        end
  end.

(** A name that starts with a dot; a wildcard does not match its leading
    dot ([glob._ishidden]). *)
Definition ishidden (s : string) : bool :=
  match s with
  | String c _ => Ascii.eqb c "."
  | EmptyString => false
  end.

(** Modelled from the spec: which entries a wildcard handed to
    [remove_files] names.  [remove_files] is not part of the sources at
    hand; spec 4.4 has it delete the "files matching [*.xml] and the
    original [*.png] masks from the prediction directory".  So [key] is
    named by [pattern] when it stands in the directory written in front of
    the pattern's last ["/"] and its name matches what follows; a name that
    starts with a dot is named only by a pattern that starts with one. *)
Definition glob_matches (pattern key : string) : bool :=
  match rsplit_slash pattern, rsplit_slash key with
  | Some (dirname, base), Some (kdir, name) =>
      String.eqb dirname kdir && fnmatch base name &&
      (ishidden base || negb (ishidden name))
  | _, _ => false
  end.

(** Modelled from the spec: the entries of [fs] that [pattern] names in
    the sense of [glob_matches], in the file system's listing order. *)
Definition glob (pattern : string) (fs : FS) : list string :=
  List.filter (glob_matches pattern) (map fst (map_to_list fs)).

(** The components of a path: what stands between its slashes, without
    the empty parts (a leading, repeated or trailing slash) and the ["."]
    parts. *)
Definition components (path : string) : list string :=
  List.filter (fun x => negb (String.eqb x "") && negb (String.eqb x "."))
    (Py.split "/" path).

(** [os.path.isabs(path)] *)
Definition isabs (path : string) : bool :=
  match path with
  | String c _ => Ascii.eqb c "/"
  | EmptyString => false
  end.

(** Where one more component leads from the directory [stack] (innermost
    component first): [".."] leads back to the parent, stays at the root,
    and is kept in front of a relative path; any other name leads into the
    entry of that name. *)
Definition enter (abs : bool) (stack : list string) (c : string)
  : list string :=
  if String.eqb c ".." then
    match stack with
    | [] => if abs then [] else [c]
    | top :: below => if String.eqb top ".." then c :: stack else below
    end
  else c :: stack.

(** The directories reached component by component. *)
Fixpoint walk (abs : bool) (stack : list string) (comps : list string)
  : list (list string) :=
  match comps with
  | [] => []
  | c :: comps' => enter abs stack c :: walk abs (enter abs stack c) comps'
  end.

(** Components joined by slashes, outermost first. *)
Fixpoint joined (comps : list string) : string :=
  match comps with
  | [] => ""
  | [c] => c
  | c :: comps' => c +:+ "/" +:+ joined comps'
  end.

(** The path under which the file system stores the directory [stack];
    [None] for the root, the working directory and the directories above
    it, which are not stored and always exist. *)
Definition key_of (abs : bool) (stack : list string) : option string :=
  match stack with
  | [] => None
  | top :: _ =>
      if String.eqb top ".." then None
      else Some ((if abs then "/" else "") +:+ joined (List.rev stack))
  end.

(** The directories [os.makedirs(path)] goes through, the outermost first
    and [path] itself last: one step for every component of [path]. *)
Definition steps (path : string) : list (option string) :=
  map (key_of (isabs path)) (walk (isabs path) [] (components path)).

(** Those of them that the file system stores. *)
Definition ancestors (path : string) : list string :=
  omap id (steps path).

(** What stops [os.makedirs]: the first regular file on the way.  At the
    last step it is [path] itself that exists and is no directory, and
    [mkdir]'s [FileExistsError] is re-raised; before that, the [mkdir]
    below the file raises [NotADirectoryError].  Either carries the path of
    the file. *)
Fixpoint blocked (fs : FS) (todo : list (option string)) : option exn :=
  match todo with
  | [] => None
  | None :: todo' => blocked fs todo'
  | Some d :: todo' =>
      match fs !! d with
      | Some (File _) =>
          Some (match todo' with
                | [] => FileExistsError d
                | _ :: _ => NotADirectoryError d
                end)
      | _ => blocked fs todo'
      end
  end.

(** [os.mkdir(d)] unless [d] exists. *)
Definition mkdir_missing (fs : FS) (d : string) : FS :=
  match fs !! d with
  | None => <[d := Dir]> fs
  | Some _ => fs
  end.

(** [os.makedirs(path, exist_ok=True)]: the empty path raises
    [FileNotFoundError]; a regular file at [path] or above it raises and
    nothing is made; otherwise every directory on the way that is missing
    is made, the parents first, and those that exist are left alone. *)
Definition makedirs_exist_ok (path : string) (fs : FS) : exn + FS :=
  if String.eqb path "" then inl (FileNotFoundError path)
  else match blocked fs (steps path) with
       | Some e => inl e
       | None => inr (foldl mkdir_missing fs (ancestors path))
       end.

End Os.

(** Modelled from the spec: [save_mask] is imported from
    [hot_fair_utilities/inference/utils.py], which is not part of the
    sources at hand.  Spec 4.1 step 5: "Write each resulting single-channel
    mask to [{prediction_path}/{input_stem}.png]"; the function receives the
    mask and that path and writes the file. *)
Definition save_mask (mask : ndarray Z) (filename : string) (fs : FS) : FS :=
  <[filename := File (Mask mask)]> fs.

(** Modelled from the spec: [remove_files] is imported from
    [hot_fair_utilities/utils.py], which is not part of the sources at
    hand.  Spec 4.4: "deletes all auxiliary/intermediate files matching
    [*.xml] and the original [*.png] masks from the prediction directory ...
    Idempotent: deleting an already-absent file is not an error."  The
    function receives nothing but the wildcard pattern, so it deletes every
    path the pattern lists. *)
Definition remove_files (pattern : string) (fs : FS) : FS :=
  foldl (fun acc file => delete file acc) fs (Os.glob pattern fs).

(** Modelled from the spec: [georeference] is imported from
    [hot_fair_utilities/georeferencing.py], which is not part of the
    sources at hand.  Spec 4.3: it "reads every mask image produced in
    4.1/4.2 and rewrites it in place (or to the same directory) as a
    georeferenced raster tagged with a fixed coordinate reference system";
    spec 6: "one georeferenced raster per input tile, named
    [{input_stem}.png] ... CRS fixed at EPSG:3857". *)
Definition georeference_in_place (input_path output_path : string)
    (is_mask : bool) (fs : FS) : exn + FS :=
  inr (foldl
         (fun acc file =>
            match fs !! file with
            | Some (File (Mask m)) =>
                <[output_path +:+ "/" +:+ Py.stem file +:+ ".png"
                  := File (GeoRaster "EPSG:3857" m)]> acc
            | _ => acc
            end)
         fs (Os.glob (input_path +:+ "/*.png") fs)).

(** ** External collaborators

    What [predict.py] calls but does not define: the Keras model behind
    [keras.models.load_model] and [model.predict], the image loader
    [open_images] of [inference/utils.py], [georeference], and the listing
    [glob] makes of the input directory.  They are kept abstract; every
    theorem below holds whatever they do. *)

Record Externals : Type := {
  pixel : Type;                       (* element type of the loaded tiles *)
  score : Type;                       (* element type of the model's scores *)
  score_leb : score -> score -> bool; (* [x <= y] on scores *)
  score_isnan : score -> bool;        (* [np.isnan(x)] *)
  (* glob(pattern): the paths listed in the file system as it is *)
  glob : FS -> string -> list string;
  (* keras.models.load_model(checkpoint_path); the result is the loaded
     model's [predict] method *)
  load_model : FS -> string -> exn + (ndarray pixel -> exn + ndarray score);
  (* open_images(image_batch) *)
  open_images : FS -> list string -> exn + ndarray pixel;
  (* georeference(input_path, output_path, is_mask=...) *)
  georeference : string -> string -> bool -> FS -> exn + FS
}.

(** ** Observable events and the world *)

Inductive event : Type :=
| EvLoadModel (checkpoint_path : string)
| EvMakedirs (path : string)
| EvGlob (pattern : string)
| EvSubmit (image_batch : list string)
| EvInference (image_batch : list string)
| EvSaveMask (filename : string)
| EvFutureDone (task : nat) (exception : option exn)
| EvWaitReturned
| EvGeoreference (input_path output_path : string) (is_mask : bool)
| EvRemoveFiles (pattern : string).

Record world : Type := World {
  fs : FS;
  trace : list event   (* oldest event first *)
}.

(** ** Computations that read and write the world and may raise *)

Definition M (A : Type) : Type := world -> world * (exn + A).

Definition ret {A} (a : A) : M A := fun w => (w, inr a).

Definition bind {A B} (m : M A) (k : A -> M B) : M B :=
  fun w =>
    match m w with
    | (w', inl e) => (w', inl e)
    | (w', inr a) => k a w'
    end.

Notation "'let*' x ':=' m 'in' k" := (bind m (fun x => k))
  (at level 10, x name, m at level 100, k at level 200).
Notation "m ';;' k" := (bind m (fun _ => k))
  (at level 100, k at level 200, right associativity).

(** Raise when the pure step failed, go on with its value otherwise. *)
Definition lift {A} (r : exn + A) : M A := fun w => (w, r).

Definition log (e : event) : M unit :=
  fun w => (World (fs w) (trace w ++ [e]), inr tt).

Definition get_fs : M FS := fun w => (w, inr (fs w)).

Definition put_fs (fs' : FS) : M unit :=
  fun w => (World fs' (trace w), inr tt).

(** ** File-system calls as computations, each leaving its event *)

Definition makedirs (path : string) : M unit :=
  log (EvMakedirs path);;
  let* fs0 := get_fs in
  let* fs1 := lift (Os.makedirs_exist_ok path fs0) in
  put_fs fs1.

Definition do_remove_files (pattern : string) : M unit :=
  log (EvRemoveFiles pattern);;
  let* fs0 := get_fs in
  put_fs (remove_files pattern fs0).

(** ** Tasks of the thread pool

    A submitted [process_batch] call is a future that is queued, then in
    its saving loop, then finished with [None] or with the exception it
    raised.  A worker exception ends in the future; nothing re-raises it
    unless somebody asks the future for its result. *)

Inductive task : Type :=
| Queued (image_batch : list string)
| Saving (preds : ndarray Z) (rest : list (Z * string))
| Finished (exception : option exn).

Definition is_finished (t : task) : bool :=
  match t with
  | Finished _ => true
  | _ => false
  end.

(** Number of scheduler turns a task still needs. *)
Definition task_fuel (t : task) : nat :=
  match t with
  | Queued image_batch => length image_batch + 2
  | Saving _ rest => length rest + 1
  | Finished _ => 0
  end.

(** The batches [predict] cuts (lines 72 and 76-77): [n_batches] slices of
    [BATCH_SIZE] paths each. *)
Definition image_batches (image_paths : list string) : list (list string) :=
  map (fun i => Py.slice image_paths (BATCH_SIZE * i) (BATCH_SIZE * (i + 1)))
      (Py.range (Py.ceil_div (Py.len image_paths) BATCH_SIZE)).

(** A mask whose pixels are all 0 or 1. *)
Definition binary_mask (m : ndarray Z) : Prop :=
  forall i, item m i = 0 \/ item m i = 1.

Section Program.

Context (ext : Externals).

Definition Model : Type := ndarray (pixel ext) -> exn + ndarray (score ext).

(** *** [process_batch] (predict.py, lines 25-40) *)

(** Lines 26-32: load, reshape, infer, arg-max, binarize. *)
Definition infer (model : Model) (image_batch : list string) : M (ndarray Z) :=
  let* fs0 := get_fs in
  let* images := lift (open_images ext fs0 image_batch) in
  let* images := lift (Np.reshape_m1 images [IMAGE_SIZE; IMAGE_SIZE; 3]) in
  log (EvInference image_batch);;
  let* preds := lift (model images) in
  let* preds :=
    lift (Np.argmax_last (score_leb ext) (score_isnan ext) preds) in
  let preds := Np.expand_dims_last preds in
  ret (Np.where_gt_half preds).

(** Where the mask of [path] goes (line 37). *)
Definition mask_filename (prediction_path path : string) : string :=
  prediction_path +:+ "/" +:+ Py.stem path +:+ ".png".

(** Lines 35-38: one turn of the loop. *)
Definition save_one (prediction_path : string) (preds : ndarray Z)
    (ip : Z * string) : M unit :=
  let* mask := lift (Np.getitem preds ip.1) in
  let filename := mask_filename prediction_path ip.2 in
  log (EvSaveMask filename);;
  let* fs0 := get_fs in
  put_fs (save_mask mask filename fs0).

(** Lines 34-38: [for idx, path in enumerate(image_batch)]. *)
Fixpoint save_loop (prediction_path : string) (preds : ndarray Z)
    (rest : list (Z * string)) : M unit :=
  match rest with
  | [] => ret tt
  | ip :: rest' =>
      save_one prediction_path preds ip;;
      save_loop prediction_path preds rest'
  end.

Definition process_batch (image_batch : list string) (model : Model)
    (prediction_path : string) : M unit :=
  let* preds := infer model image_batch in
  save_loop prediction_path preds (Py.enumerate image_batch).

(** *** The pool: [process_batch] run by interleaved workers *)

(** One scheduler turn of one task: the whole of lines 26-32, or one turn
    of the saving loop, or the return after the last turn. *)
Definition task_step (model : Model) (prediction_path : string)
    (t : task) (w : world) : option (task * world) :=
  match t with
  | Queued image_batch =>
      match infer model image_batch w with
      | (w', inl e) => Some (Finished (Some e), w')
      | (w', inr preds) => Some (Saving preds (Py.enumerate image_batch), w')
      end
  | Saving preds [] => Some (Finished None, w)
  | Saving preds (ip :: rest) =>
      match save_one prediction_path preds ip w with
      | (w', inl e) => Some (Finished (Some e), w')
      | (w', inr _) => Some (Saving preds rest, w')
      end
  | Finished _ => None
  end.

Definition note_done (k : nat) (t : task) (w : world) : world :=
  match t with
  | Finished exception => World (fs w) (trace w ++ [EvFutureDone k exception])
  | _ => w
  end.

(** The scheduler gives task [k] one turn. *)
Definition pick (model : Model) (prediction_path : string) (k : nat)
    (st : world * list task) : option (world * list task) :=
  match st.2 !! k with
  | Some t =>
      match task_step model prediction_path t st.1 with
      | Some (t', w') => Some (note_done k t' w', <[k := t']> st.2)
      | None => None
      end
  | None => None
  end.

Inductive pool_step (model : Model) (prediction_path : string)
  : relation (world * list task) :=
| Pool_step k st st' :
    pick model prediction_path k st = Some st' ->
    pool_step model prediction_path st st'.

(** Task [k] gets up to [fuel] turns in a row. *)
Fixpoint run_task (model : Model) (prediction_path : string)
    (fuel : nat) (k : nat) (st : world * list task) : world * list task :=
  match fuel with
  | O => st
  | S fuel' =>
      match pick model prediction_path k st with
      | Some st' => run_task model prediction_path fuel' k st'
      | None => st
      end
  end.

Definition fuel_of (k : nat) (st : world * list task) : nat :=
  match st.2 !! k with
  | Some t => task_fuel t
  | None => O
  end.

(** Every task still unfinished is run to its end, in submission order. *)
Definition drain (model : Model) (prediction_path : string)
    (st : world * list task) : world * list task :=
  foldl (fun acc k => run_task model prediction_path (fuel_of k acc) k acc)
        st (seq 0 (length st.2)).

(** The pool under the scheduler's choices [sched]: each entry gives one
    turn to that task (an entry naming no runnable task is skipped); the
    executor then waits for whatever is left. *)
Definition drive (model : Model) (prediction_path : string)
    (sched : list nat) (st : world * list task) : world * list task :=
  drain model prediction_path
    (foldl (fun acc k => default acc (pick model prediction_path k acc))
           st sched).

Definition run_pool (sched : list nat) (model : Model)
    (prediction_path : string) (futures : list task) : M (list task) :=
  fun w =>
    let st := drive model prediction_path sched (w, futures) in
    (st.1, inr st.2).

(** *** [predict] (predict.py, lines 43-91) *)

(** Line 71: the listing, leaving its event. *)
Definition do_glob (pattern : string) : M (list string) :=
  log (EvGlob pattern);;
  let* fs0 := get_fs in
  ret (glob ext fs0 pattern).

(** Lines 76-80: [for i in range(n_batches)]. *)
Fixpoint submit_loop (image_paths : list string) (indices : list Z)
    (futures : list task) : M (list task) :=
  match indices with
  | [] => ret futures
  | i :: indices' =>
      let image_batch :=
        Py.slice image_paths (BATCH_SIZE * i) (BATCH_SIZE * (i + 1)) in
      log (EvSubmit image_batch);;
      submit_loop image_paths indices' (futures ++ [Queued image_batch])
  end.

Definition do_georeference (input_path output_path : string)
    (is_mask : bool) : M unit :=
  log (EvGeoreference input_path output_path is_mask);;
  let* fs0 := get_fs in
  let* fs1 := lift (georeference ext input_path output_path is_mask fs0) in
  put_fs fs1.

(** The state in which the pool starts (after line 80): the directory
    exists as [fs1] has it, the paths are listed, every batch is submitted. *)
Definition pool_start (input_path : string) (w : world) (fs1 : FS)
    (prediction_path : string) : world * list task :=
  let batches := image_batches (glob ext fs1 (input_path +:+ "/*.png")) in
  (World fs1 (trace w ++ [EvMakedirs prediction_path;
                          EvGlob (input_path +:+ "/*.png")]
                      ++ map EvSubmit batches),
   map Queued batches).

(** Lines 90-91: the cleanup step. *)
Definition cleanup (prediction_path : string) : M unit :=
  do_remove_files (prediction_path +:+ "/*.xml");;
  do_remove_files (prediction_path +:+ "/*.png").

(** Lines 70-91: what [predict] does once the model is loaded. *)
Definition predict_loaded (sched : list nat) (model : Model)
    (input_path prediction_path : string) : M unit :=
  makedirs prediction_path;;
  let* image_paths := do_glob (input_path +:+ "/*.png") in
  let n_batches := Py.ceil_div (Py.len image_paths) BATCH_SIZE in
  let* futures := submit_loop image_paths (Py.range n_batches) [] in
  let* futures := run_pool sched model prediction_path futures in
  log EvWaitReturned;;
  do_georeference prediction_path prediction_path true;;
  cleanup prediction_path.

(** Lines 64-91.  [sched] is the order in which the executor's workers
    happen to take their turns. *)
Definition predict (sched : list nat)
    (checkpoint_path input_path prediction_path : string) : M unit :=
  log (EvLoadModel checkpoint_path);;
  let* fs0 := get_fs in
  let* model := lift (load_model ext fs0 checkpoint_path) in
  predict_loaded sched model input_path prediction_path.

End Program.

(** ** The saving loop in closed form *)

(** The turns of the saving loop that get their mask: the longest prefix of
    [rest] on which [preds[idx]] exists. *)
Fixpoint saved_prefix (preds : ndarray Z) (rest : list (Z * string))
  : list (Z * string) :=
  match rest with
  | [] => []
  | ip :: rest' =>
      match Np.getitem preds ip.1 with
      | inl _ => []
      | inr _ => ip :: saved_prefix preds rest'
      end
  end.

(** How the saving loop ends: normally, or with the first failing
    [preds[idx]]. *)
Fixpoint loop_outcome (preds : ndarray Z) (rest : list (Z * string))
  : exn + unit :=
  match rest with
  | [] => inr tt
  | ip :: rest' =>
      match Np.getitem preds ip.1 with
      | inl e => inl e
      | inr _ => loop_outcome preds rest'
      end
  end.

(** The write of one turn. *)
Definition save_at (prediction_path : string) (preds : ndarray Z)
    (acc : FS) (ip : Z * string) : FS :=
  match Np.getitem preds ip.1 with
  | inr mask => save_mask mask (mask_filename prediction_path ip.2) acc
  | inl _ => acc
  end.

(** ** Vocabulary for traces *)

(** Events a worker leaves while it runs a batch. *)
Definition work_event (e : event) : bool :=
  match e with
  | EvInference _ | EvSaveMask _ => true
  | _ => false
  end.

(** Events of the pool: those of the workers, and the completion of a
    future. *)
Definition pool_event (e : event) : bool :=
  match e with
  | EvInference _ | EvSaveMask _ | EvFutureDone _ _ => true
  | _ => false
  end.

Definition is_done_of (k : nat) (e : event) : bool :=
  match e with
  | EvFutureDone j _ => Nat.eqb j k
  | _ => false
  end.

(** How often the future of task [k] completes in [evs]. *)
Definition done_count (k : nat) (evs : list event) : nat :=
  length (List.filter (is_done_of k) evs).

Definition is_inference (e : event) : bool :=
  match e with
  | EvInference _ => true
  | _ => false
  end.

Definition is_submit (e : event) : bool :=
  match e with
  | EvSubmit _ => true
  | _ => false
  end.

Definition is_georeference (e : event) : bool :=
  match e with
  | EvGeoreference _ _ _ => true
  | _ => false
  end.


(** The files saved in [evs], in the order they were saved. *)
Fixpoint saved_files (evs : list event) : list string :=
  match evs with
  | [] => []
  | EvSaveMask filename :: evs' => filename :: saved_files evs'
  | _ :: evs' => saved_files evs'
  end.

(** What the pool has done since it started from trace [tr0] with [n]
    queued tasks: only pool events were added, no task was added or lost,
    and a future has completed exactly once if its task is finished and not
    at all otherwise. *)
Definition pool_inv (tr0 : list event) (n : nat) (st : world * list task)
  : Prop :=
  exists evs,
    trace st.1 = tr0 ++ evs /\
    Forall (fun e => pool_event e = true) evs /\
    length st.2 = n /\
    forall k, done_count k evs
              = match st.2 !! k with
                | Some t => if is_finished t then 1%nat else 0%nat
                | None => 0%nat
                end.

(** ** Batches that go through *)

(** In the file system [fs1], lines 26-32 succeed on the batch and give at
    least one prediction per path. *)
Definition batch_loads (ext : Externals) (model : Model ext)
    (image_batch : list string) (fs1 : FS) : Prop :=
  exists preds n inner,
    (infer ext model image_batch (World fs1 [])).2 = inr preds /\
    shape preds = n :: inner /\
    Py.len image_batch <= n.

(** The mask files a task has still to write. *)
Definition todo (prediction_path : string) (t : task) : list string :=
  match t with
  | Queued image_batch => map (mask_filename prediction_path) image_batch
  | Saving _ rest => map (fun ip => mask_filename prediction_path ip.2) rest
  | Finished _ => []
  end.

(** A task on its way to writing all its masks: queued with one of the
    [batches], or saving with a prediction for every remaining turn, or
    finished without an exception. *)
Definition healthy (batches : list (list string)) (t : task) : Prop :=
  match t with
  | Queued image_batch => image_batch ∈ batches
  | Saving preds rest =>
      binary_mask preds /\
      Forall (fun ip => exists mask, Np.getitem preds ip.1 = inr mask) rest
  | Finished exception => exception = None
  end.

(** The pool while all goes well, since it started in file system [fs0]
    with trace [tr0]: the files saved so far and those still to write make
    up [targets]; only [targets] were touched; every saved file holds a
    binary mask. *)
Definition writes_inv (prediction_path : string) (fs0 : FS)
    (tr0 : list event) (targets : list string) (batches : list (list string))
    (st : world * list task) : Prop :=
  exists evs,
    trace st.1 = tr0 ++ evs /\
    (forall k, k ∉ targets -> fs st.1 !! k = fs0 !! k) /\
    saved_files evs ++ concat (map (todo prediction_path) st.2) ≡ₚ targets /\
    Forall (healthy batches) st.2 /\
    (forall f, f ∈ saved_files evs ->
       exists m, fs st.1 !! f = Some (File (Mask m)) /\ binary_mask m).

(** ** The pool whatever happens *)

(** A task whose predictions, if it has any, are binary. *)
Definition sound (t : task) : Prop :=
  match t with
  | Saving preds _ => binary_mask preds
  | _ => True
  end.

(** The pool since it started in file system [fs0] with trace [tr0],
    whether its batches fail or not: a path that was not saved is as it was;
    the files saved so far and those still to write fit into [targets],
    counting repetitions; every saved file holds a binary mask. *)
Definition safe_inv (prediction_path : string) (fs0 : FS)
    (tr0 : list event) (targets : list string)
    (st : world * list task) : Prop :=
  exists evs,
    trace st.1 = tr0 ++ evs /\
    (forall k, k ∉ saved_files evs -> fs st.1 !! k = fs0 !! k) /\
    saved_files evs ++ concat (map (todo prediction_path) st.2) ⊆+ targets /\
    Forall sound st.2 /\
    (forall f, f ∈ saved_files evs ->
       exists m, fs st.1 !! f = Some (File (Mask m)) /\ binary_mask m).

(** The inference a task has still to make. *)
Definition waiting (t : task) : list event :=
  match t with
  | Queued image_batch => [EvInference image_batch]
  | _ => []
  end.

(** The pool since it started with trace [tr0]: the inferences made so far
    and those still to make fit, counting repetitions, into one inference
    per batch of [batches]. *)
Definition inference_inv (tr0 : list event) (batches : list (list string))
    (st : world * list task) : Prop :=
  exists evs,
    trace st.1 = tr0 ++ evs /\
    List.filter is_inference evs ++ concat (map waiting st.2)
    ⊆+ map EvInference batches.

(** ** Which prediction a mask file gets *)

(** For every turn of every batch's saving loop: the file it writes, with
    the batch and the position of the prediction it writes there. *)
Definition assignments (prediction_path : string)
    (batches : list (list string)) : list (string * (list string * Z)) :=
  concat
    (map (fun b =>
            map (fun ip : Z * string =>
                   (mask_filename prediction_path ip.2, (b, ip.1)))
                (Py.enumerate b))
         batches).

(** A task that works on one of the [batches] with the predictions
    [preds_of] has for it, somewhere in its saving loop. *)
Definition tracked (preds_of : list string -> ndarray Z)
    (batches : list (list string)) (t : task) : Prop :=
  match t with
  | Queued image_batch => image_batch ∈ batches
  | Saving preds rest =>
      exists b done,
        b ∈ batches /\ preds = preds_of b /\ Py.enumerate b = done ++ rest
  | Finished _ => True
  end.

(** The pool since it started with trace [tr0]: every file saved so far
    holds the prediction that some turn of some batch's loop assigns to
    it. *)
Definition content_inv (prediction_path : string)
    (preds_of : list string -> ndarray Z) (batches : list (list string))
    (tr0 : list event) (st : world * list task) : Prop :=
  exists evs,
    trace st.1 = tr0 ++ evs /\
    Forall (tracked preds_of batches) st.2 /\
    forall f, f ∈ saved_files evs ->
      exists b idx m,
        (f, (b, idx)) ∈ assignments prediction_path batches /\
        Np.getitem (preds_of b) idx = inr m /\
        fs st.1 !! f = Some (File (Mask m)).

(** What the future of a call holds once the call has ended with outcome
    [r]: the exception it raised, if any. *)
Definition raised {A} (r : exn + A) : option exn :=
  match r with
  | inl e => Some e
  | inr _ => None
  end.

(** ** What a future holds *)

(** [fs1] is [fs0] except, perhaps, at the mask files of the paths of
    [batches]. *)
Definition masks_apart (prediction_path : string)
    (batches : list (list string)) (fs0 fs1 : FS) : Prop :=
  forall k,
    k ∉ map (mask_filename prediction_path) (concat batches) ->
    fs1 !! k = fs0 !! k.

(** The outcome of [process_batch] on [image_batch] in one of the file
    systems [reachable]: the exception of lines 26-32, or else that of the
    first [preds[idx]] that fails, or none. *)
Definition batch_outcome (ext : Externals) (model : Model ext)
    (reachable : FS -> Prop) (image_batch : list string)
    (exception : option exn) : Prop :=
  exists fs1,
    reachable fs1 /\
    match (infer ext model image_batch (World fs1 [])).2 with
    | inl e => exception = Some e
    | inr preds =>
        exception = raised (loop_outcome preds (Py.enumerate image_batch))
    end.

(** A task that runs [process_batch] on [image_batch]: still queued with
    it, or in its saving loop with the predictions made for it and no
    failure so far, or finished with the outcome of the call. *)
Definition on_course (ext : Externals) (model : Model ext)
    (reachable : FS -> Prop) (image_batch : list string) (t : task) : Prop :=
  match t with
  | Queued image_batch' => image_batch' = image_batch
  | Saving preds rest =>
      exists fs1 done,
        reachable fs1 /\
        (infer ext model image_batch (World fs1 [])).2 = inr preds /\
        Py.enumerate image_batch = done ++ rest /\
        loop_outcome preds (Py.enumerate image_batch) = loop_outcome preds rest
  | Finished exception =>
      batch_outcome ext model reachable image_batch exception
  end.

(** The pool since it started in file system [fs0] with trace [tr0] on
    [batches]: only mask files of submitted paths were touched, task [k]
    runs batch [k], and a future is reported done with an exception (or
    none) exactly when its task has finished with it. *)
Definition futures_inv (ext : Externals) (model : Model ext)
    (prediction_path : string) (batches : list (list string))
    (fs0 : FS) (tr0 : list event) (st : world * list task) : Prop :=
  exists evs,
    trace st.1 = tr0 ++ evs /\
    masks_apart prediction_path batches fs0 (fs st.1) /\
    Forall2 (on_course ext model (masks_apart prediction_path batches fs0))
      batches st.2 /\
    forall k exception,
      EvFutureDone k exception ∈ evs <->
      st.2 !! k = Some (Finished exception).

(** ** What the arg-max of a row is *)

(** The order of a score type: [<=] is total and transitive on the scores
    that are not NaN, and false when its left side is NaN. *)
Record score_order {A} (leb : A -> A -> bool) (isnan : A -> bool) : Prop := {
  leb_total : forall x y,
    isnan x = false -> isnan y = false -> leb x y = true \/ leb y x = true;
  leb_trans : forall x y z,
    leb x y = true -> leb y z = true -> leb x z = true;
  leb_nan : forall x y, isnan x = true -> leb x y = false
}.

(** Position [k] holds the arg-max of the row [xs] as numpy defines it: the
    first NaN when the row has one; otherwise an element that no element
    exceeds, and the first such. *)
Definition first_max {A} (leb : A -> A -> bool) (isnan : A -> bool)
    (xs : list A) (k : nat) : Prop :=
  exists x,
    xs !! k = Some x /\
    if isnan x
    then forall j y, (j < k)%nat -> xs !! j = Some y -> isnan y = false
    else (forall y, y ∈ xs -> isnan y = false /\ leb y x = true) /\
         (forall j y, (j < k)%nat -> xs !! j = Some y -> leb x y = false).

(** ** Sample collaborators and worlds *)

Module Sample.

(** A listing for worlds whose input directory is written without
    wildcard characters and without a trailing slash: the entries of the
    pattern's directory whose names match its last component. *)
Definition list_entries (fs0 : FS) (pattern : string) : list string :=
  Os.glob pattern fs0.

(** A loader that returns one 256x256x3 tile per path. *)
Definition open_tiles (_ : FS) (image_batch : list string) : exn + ndarray Z :=
  inr (NdArray [Py.len image_batch; 256; 256; 3] (fun i => i mod 251)).

(** A loader that returns one tile per path and one more. *)
Definition open_padded (_ : FS) (image_batch : list string) : exn + ndarray Z :=
  inr (NdArray [Py.len image_batch + 1; 256; 256; 3] (fun i => i mod 251)).

(** A loader that returns a single tile whatever the batch. *)
Definition open_one_tile (_ : FS) (image_batch : list string) : exn + ndarray Z :=
  inr (NdArray [1; 256; 256; 3] (fun i => i mod 251)).

(** A loader that returns 100 numbers. *)
Definition open_ragged (_ : FS) (image_batch : list string) : exn + ndarray Z :=
  inr (NdArray [100] (fun i => i mod 251)).

(** A two-class model: at pixel [p] the score of class [p mod 2] is 1, the
    other one 0. *)
Definition two_class_model (images : ndarray Z) : exn + ndarray Z :=
  match shape images with
  | n :: _ =>
      inr (NdArray [n; 256; 256; 2]
             (fun i => if (i mod 2 =? (i / 2) mod 2) then 1 else 0))
  | [] => inl (ExternalError "no batch axis")
  end.

(** A model whose inference raises. *)
Definition failing_model (_ : ndarray Z) : exn + ndarray Z :=
  inl (ExternalError "inference failed").

Definition collaborators
    (loader : FS -> list string -> exn + ndarray Z)
    (model : ndarray Z -> exn + ndarray Z) : Externals :=
  {| pixel := Z;
     score := Z;
     score_leb := Z.leb;
     score_isnan := fun _ => false;
     glob := list_entries;
     load_model := fun _ _ => inr model;
     open_images := loader;
     georeference := georeference_in_place |}.

Definition ext_ok : Externals := collaborators open_tiles two_class_model.
Definition ext_failing_model : Externals := collaborators open_tiles failing_model.
Definition ext_one_tile : Externals := collaborators open_one_tile two_class_model.
Definition ext_ragged : Externals := collaborators open_ragged two_class_model.
Definition ext_padded : Externals := collaborators open_padded two_class_model.

(** Scores that may be NaN: [None] is NaN, and every comparison with it is
    false. *)
Definition nan_leb (x y : option Z) : bool :=
  match x, y with
  | Some a, Some b => a <=? b
  | _, _ => false
  end.

Definition nan_isnan (x : option Z) : bool :=
  match x with
  | Some _ => false
  | None => true
  end.

(** A two-class model that scores class 0 with 0 and class 1 with NaN at
    every pixel. *)
Definition nan_model (images : ndarray Z) : exn + ndarray (option Z) :=
  match shape images with
  | n :: _ =>
      inr (NdArray [n; 256; 256; 2]
             (fun i => if i mod 2 =? 0 then Some 0 else None))
  | [] => inl (ExternalError "no batch axis")
  end.

Definition ext_nan : Externals :=
  {| pixel := Z;
     score := option Z;
     score_leb := nan_leb;
     score_isnan := nan_isnan;
     glob := list_entries;
     load_model := fun _ _ => inr nan_model;
     open_images := open_tiles;
     georeference := georeference_in_place |}.

(** Two tiles, a text file and a stale sidecar. *)
Definition fs_two_tiles : FS :=
  list_to_map
    [("tiles", Dir);
     ("tiles/a.png", File (Blob "tile a"));
     ("tiles/b.png", File (Blob "tile b"));
     ("tiles/notes.txt", File (Blob "notes"));
     ("out", Dir);
     ("out/old.aux.xml", File (Blob "<PAMDataset/>"))].

(** No tile at all. *)
Definition fs_no_tiles : FS :=
  list_to_map
    [("tiles", Dir);
     ("tiles/notes.txt", File (Blob "notes"))].

Definition world_of (fs0 : FS) : world := World fs0 [].

End Sample.

(** * Properties *)

(** ** Python and numpy helpers *)

Lemma ceil_div_8 (a : Z) : Py.ceil_div a 8 = (a + 7) / 8.
Proof.
  unfold Py.ceil_div, Qceiling, Qfloor, Qdiv, Qmult, Qopp, Qinv, inject_Z.
  cbn [Qnum Qden].
  change (Z.pos (1 * 8)) with 8.
  rewrite Z.mul_1_r.
  pose proof (Z.div_mod (- a) 8 ltac:(lia)).
  pose proof (Z.mod_pos_bound (- a) 8 ltac:(lia)).
  pose proof (Z.div_mod (a + 7) 8 ltac:(lia)).
  pose proof (Z.mod_pos_bound (a + 7) 8 ltac:(lia)).
  lia.
Qed.

Lemma range_length (n : Z) : length (Py.range n) = Z.to_nat n.
Proof. unfold Py.range. by rewrite length_map, length_seq. Qed.

Lemma range_lookup (n : Z) (i : nat) :
  (i < Z.to_nat n)%nat -> Py.range n !! i = Some (Z.of_nat i).
Proof.
  intros Hi. unfold Py.range.
  rewrite list_lookup_fmap, lookup_seq_lt by done. done.
Qed.

Lemma slice_take_drop {A} (l : list A) (lo hi : Z) :
  0 <= lo <= hi ->
  Py.slice l lo hi = take (Z.to_nat (hi - lo)) (drop (Z.to_nat lo) l).
Proof.
  intros Hb. unfold Py.slice, Py.slice_index, Py.len.
  destruct (Z.ltb_spec lo 0), (Z.ltb_spec hi 0); try lia.
  destruct (Z.le_gt_cases (Z.of_nat (length l)) lo) as [Hlo | Hlo].
  - rewrite !drop_ge by lia. by rewrite !take_nil.
  - rewrite (Z.min_l lo) by lia.
    destruct (Z.le_gt_cases (Z.of_nat (length l)) hi) as [Hhi | Hhi].
    + rewrite Z.min_r by lia.
      rewrite !take_ge; [done | rewrite length_drop; lia | rewrite length_drop; lia].
    + by rewrite Z.min_l by lia.
Qed.

Lemma gt_half_ge_1 (v : Z) : Np.gt_half v = true <-> 1 <= v.
Proof.
  unfold Np.gt_half. rewrite negb_true_iff, <- not_true_iff_false, Qle_bool_iff.
  unfold Qle, inject_Z. cbn [Qnum Qden]. lia.
Qed.

Lemma argmax_from_bounds {A} (leb : A -> A -> bool) (isnan : A -> bool)
    xs best besti i :
  0 <= besti < i ->
  besti <= Np.argmax_from leb isnan best besti i xs < i + Py.len xs.
Proof.
  revert best besti i.
  induction xs as [| x xs IH]; intros best besti i Hb; cbn [Np.argmax_from].
  - unfold Py.len. cbn. lia.
  - unfold Py.len in *. cbn [length].
    destruct (isnan best); [lia |].
    destruct (leb x best).
    + specialize (IH best besti (i + 1) ltac:(lia)). lia.
    + specialize (IH x i (i + 1) ltac:(lia)). lia.
Qed.

Lemma argmax_row_bounds {A} (leb : A -> A -> bool) (isnan : A -> bool) xs k :
  Np.argmax_row leb isnan xs = Some k -> 0 <= k < Py.len xs.
Proof.
  destruct xs as [| x xs]; [done |]. cbn [Np.argmax_row]. intros [= <-].
  pose proof (argmax_from_bounds leb isnan xs x 0 1 ltac:(lia)).
  unfold Py.len in *. cbn [length]. lia.
Qed.

(** The scan keeps "first maximal element so far": if [besti] is the
    arg-max of the part [pre] already seen, the scan of the rest [xs] ends
    on the arg-max of the whole row. *)
Lemma argmax_from_first_max {A} (leb : A -> A -> bool) (isnan : A -> bool)
    (xs pre : list A) (best : A) (besti : nat) :
  score_order leb isnan ->
  pre !! besti = Some best ->
  first_max leb isnan pre besti ->
  first_max leb isnan (pre ++ xs)
    (Z.to_nat (Np.argmax_from leb isnan best (Z.of_nat besti)
                 (Z.of_nat (length pre)) xs)).
Proof.
  intros Hord. revert pre best besti.
  induction xs as [| x xs IH]; intros pre best besti Hbest Hfm;
    cbn [Np.argmax_from].
  - by rewrite Nat2Z.id, app_nil_r.
  - pose proof (lookup_lt_Some _ _ _ Hbest) as Hlt.
    destruct Hfm as (b & Hb & Hfm).
    assert (b = best) as -> by congruence.
    destruct (isnan best) eqn:Hnan.
    { rewrite Nat2Z.id. exists best. split.
      - by rewrite lookup_app_l.
      - rewrite Hnan. intros j y Hj Hy.
        rewrite lookup_app_l in Hy by lia. eauto. }
    destruct Hfm as [Hall Hfirst].
    destruct (leb x best) eqn:Hle.
    + replace (Z.of_nat (length pre) + 1)
        with (Z.of_nat (length (pre ++ [x])))
        by (rewrite length_app; cbn [length]; lia).
      replace (pre ++ x :: xs) with ((pre ++ [x]) ++ xs)
        by (by rewrite <- app_assoc).
      apply IH.
      * by rewrite lookup_app_l.
      * exists best. split; [by rewrite lookup_app_l |]. rewrite Hnan. split.
        -- intros y [Hy | Hy%list_elem_of_singleton]%elem_of_app; [by apply Hall |].
           subst y. split; [| done].
           destruct (isnan x) eqn:Hx; [| done].
           by rewrite (leb_nan _ _ Hord x best Hx) in Hle.
        -- intros j y Hj Hy. rewrite lookup_app_l in Hy by lia. eauto.
    + replace (Z.of_nat (length pre) + 1)
        with (Z.of_nat (length (pre ++ [x])))
        by (rewrite length_app; cbn [length]; lia).
      replace (pre ++ x :: xs) with ((pre ++ [x]) ++ xs)
        by (by rewrite <- app_assoc).
      assert ((pre ++ [x]) !! length pre = Some x) as Hx.
      { rewrite lookup_app_r by lia. by rewrite Nat.sub_diag. }
      apply IH; [done |].
      exists x. split; [done |].
      destruct (isnan x) eqn:Hxnan.
      * intros j y Hj Hy. rewrite lookup_app_l in Hy by lia.
        apply Hall. by eapply list_elem_of_lookup_2.
      * assert (leb best x = true) as Hbx.
        { destruct (leb_total _ _ Hord x best Hxnan Hnan); congruence. }
        split.
        -- intros y [Hy | Hy%list_elem_of_singleton]%elem_of_app.
           ++ destruct (Hall y Hy) as [Hyn Hyb]. split; [done |].
              by apply (leb_trans _ _ Hord y best x).
           ++ subst y. split; [done |].
              by destruct (leb_total _ _ Hord x x Hxnan Hxnan).
        -- intros j y Hj Hy. rewrite lookup_app_l in Hy by lia.
           destruct (leb x y) eqn:Hxy; [| done].
           assert (y ∈ pre) as Hin by (by eapply list_elem_of_lookup_2).
           destruct (Hall y Hin) as [_ Hyb].
           by rewrite (leb_trans _ _ Hord x y best Hxy Hyb) in Hle.
Qed.

Lemma argmax_row_first_max {A} (leb : A -> A -> bool) (isnan : A -> bool)
    (xs : list A) (k : Z) :
  score_order leb isnan ->
  Np.argmax_row leb isnan xs = Some k ->
  first_max leb isnan xs (Z.to_nat k).
Proof.
  intros Hord. destruct xs as [| x xs]; [done |].
  cbn [Np.argmax_row]. intros [= <-].
  apply (argmax_from_first_max leb isnan xs [x] x 0 Hord); [done |].
  exists x. split; [done |].
  destruct (isnan x) eqn:Hx.
  - intros j y Hj. lia.
  - split; [| intros j y Hj; lia].
    intros y ->%list_elem_of_singleton. split; [done |].
    by destruct (leb_total _ _ Hord x x Hx Hx).
Qed.

Lemma row_length {A} (a : ndarray A) (c i : Z) :
  Py.len (Np.row a c i) = Z.max 0 c.
Proof. unfold Np.row, Py.len. rewrite length_map, range_length. lia. Qed.

(** ** The binarization rule (lines 30-32) *)

Lemma argmax_last_inv {A} (leb : A -> A -> bool) (isnan : A -> bool)
    (a : ndarray A) classes :
  Np.argmax_last leb isnan a = inr classes ->
  exists c, last (shape a) = Some c /\ 0 < c /\
    forall i, Np.argmax_row leb isnan (Np.row a c i) = Some (item classes i) /\
              0 <= item classes i < c.
Proof.
  unfold Np.argmax_last. intros H.
  destruct (shape a) as [| d ds] using rev_ind; [done |].
  rewrite rev_app_distr in H. cbn in H.
  destruct (Z.leb_spec d 0); [done |].
  injection H as <-. exists d. rewrite last_snoc. split_and!; [done | lia |].
  intros i. cbn [item].
  destruct (Np.argmax_row leb isnan (Np.row a d i)) as [k |] eqn:Hk.
  - split; [done |]. apply argmax_row_bounds in Hk.
    rewrite row_length in Hk. lia.
  - exfalso. pose proof (row_length a d i) as Hl.
    destruct (Np.row a d i); [| done]. unfold Py.len in Hl. cbn in Hl. lia.
Qed.

Lemma where_gt_half_binary (a : ndarray Z) : binary_mask (Np.where_gt_half a).
Proof. intros i. cbn. destruct (Np.gt_half _); auto. Qed.

Lemma getitem_binary (a m : ndarray Z) (idx : Z) :
  binary_mask a -> Np.getitem a idx = inr m -> binary_mask m.
Proof.
  unfold Np.getitem. intros Ha H.
  destruct (shape a) as [| n inner]; [done |].
  destruct (_ && _); [| done]. injection H as <-. intros i. apply Ha.
Qed.

(** Unfolds one computation of [M] applied to a world. *)
Ltac run_M :=
  unfold bind, lift, log, get_fs, put_fs, ret in *; cbn [fst snd] in *.

Lemma infer_inv (ext : Externals) (model : Model ext)
    (image_batch : list string) (w w' : world) (preds : ndarray Z) :
  infer ext model image_batch w = (w', inr preds) ->
  exists images reshaped scores classes,
    open_images ext (fs w) image_batch = inr images /\
    Np.reshape_m1 images [IMAGE_SIZE; IMAGE_SIZE; 3] = inr reshaped /\
    model reshaped = inr scores /\
    Np.argmax_last (score_leb ext) (score_isnan ext) scores = inr classes /\
    preds = Np.where_gt_half (Np.expand_dims_last classes) /\
    w' = World (fs w) (trace w ++ [EvInference image_batch]).
Proof.
  unfold infer. run_M. intros H.
  destruct (open_images ext (fs w) image_batch) as [e | images]; [done |].
  destruct (Np.reshape_m1 images _) as [e | reshaped] eqn:Hr; [done |].
  cbn in H.
  destruct (model reshaped) as [e | scores] eqn:Hm; [done |].
  destruct (Np.argmax_last _ _ scores) as [e | classes] eqn:Ha; [done |].
  injection H as <- <-. by exists images, reshaped, scores, classes.
Qed.

(** C3.  Whenever lines 26-32 of [process_batch] produce [preds], the model
    returned a score array whose last axis has [c > 0] classes, and at every
    position [i] the pixel of [preds] is computed from the arg-max over the
    [c] class scores of that position, [scores[i*c] .. scores[i*c + c - 1]]:
    the class index [k] taken is the one numpy's arg-max scan gives, which
    -- when [<=] orders the scores -- is the position of the first score
    that no score of the row exceeds, or of the first NaN when the row has
    one; the pixel is 1 if [k] is greater than 0.5 and 0 otherwise, that is
    1 for an index of at least 1 and 0 for index 0.  Hence [preds], and
    every mask [preds[idx]] the saving loop writes, holds only 0 and 1. *)
Theorem C3_binarization (ext : Externals) (model : Model ext)
    (image_batch : list string) (w w' : world) (preds : ndarray Z) :
  infer ext model image_batch w = (w', inr preds) ->
  exists (images : ndarray (pixel ext)) (scores : ndarray (score ext))
         (classes : ndarray Z) (c : Z),
    model images = inr scores /\
    Np.argmax_last (score_leb ext) (score_isnan ext) scores = inr classes /\
    last (shape scores) = Some c /\ 0 < c /\
    (forall i,
        let row := map (fun k => item scores (i * c + k)) (Py.range c) in
        Np.argmax_row (score_leb ext) (score_isnan ext) row
          = Some (item classes i) /\
        0 <= item classes i < c /\
        (score_order (score_leb ext) (score_isnan ext) ->
         first_max (score_leb ext) (score_isnan ext) row
           (Z.to_nat (item classes i))) /\
        item preds i = (if Np.gt_half (item classes i) then 1 else 0) /\
        (item preds i = 1 <-> 1 <= item classes i) /\
        (item preds i = 0 <-> item classes i = 0)) /\
    binary_mask preds /\
    (forall idx mask, Np.getitem preds idx = inr mask -> binary_mask mask).
Proof.
  intros H.
  apply infer_inv in H
    as (images & reshaped & scores & classes & _ & _ & Hm & Ha & -> & _).
  destruct (argmax_last_inv _ _ _ _ Ha) as (c & Hc & Hpos & Hrow).
  exists reshaped, scores, classes, c.
  split_and!; try done.
  - intros i. destruct (Hrow i) as [Hk Hb]. cbn zeta.
    cbn [Np.where_gt_half Np.expand_dims_last item].
    split_and!; try done; try lia.
    + intros Hord. by apply argmax_row_first_max.
    + destruct (Np.gt_half (item classes i)) eqn:Hg.
      * apply gt_half_ge_1 in Hg. intuition lia.
      * assert (~ 1 <= item classes i) by (rewrite <- gt_half_ge_1; congruence).
        intuition lia.
    + destruct (Np.gt_half (item classes i)) eqn:Hg.
      * apply gt_half_ge_1 in Hg. intuition lia.
      * assert (~ 1 <= item classes i) by (rewrite <- gt_half_ge_1; congruence).
        intuition lia.
  - apply where_gt_half_binary.
  - intros idx mask Hg.
    eapply getitem_binary; [apply where_gt_half_binary | exact Hg].
Qed.

(** ** Batch partitioning (lines 72-80) *)

Lemma ceil_div_8_bounds (a : Z) :
  8 * (Py.ceil_div a 8 - 1) < a <= 8 * Py.ceil_div a 8.
Proof.
  rewrite ceil_div_8.
  pose proof (Z.div_mod (a + 7) 8 ltac:(lia)).
  pose proof (Z.mod_pos_bound (a + 7) 8 ltac:(lia)).
  lia.
Qed.

Lemma image_batches_chunks (image_paths : list string) :
  image_batches image_paths =
  map (fun i : nat => take 8 (drop (8 * i) image_paths))
      (seq 0 (Z.to_nat (Py.ceil_div (Py.len image_paths) 8))).
Proof.
  unfold image_batches, Py.range. change BATCH_SIZE with 8.
  rewrite map_map. apply map_ext. intros i.
  rewrite slice_take_drop by lia.
  f_equal; [| f_equal]; lia.
Qed.

Lemma concat_chunks {A} (l : list A) (n : nat) :
  concat (map (fun i : nat => take 8 (drop (8 * i) l)) (seq 0 n))
  = take (8 * n) l.
Proof.
  induction n as [| n IH].
  - by rewrite Nat.mul_0_r, take_0.
  - rewrite seq_S, map_app, concat_app, IH. cbn [map concat Nat.add].
    rewrite app_nil_r, take_take_drop. f_equal. lia.
Qed.

Lemma submit_loop_run (image_paths : list string) (indices : list Z)
    (futures : list task) (w : world) :
  let batches :=
    map (fun i => Py.slice image_paths (BATCH_SIZE * i) (BATCH_SIZE * (i + 1)))
        indices in
  submit_loop image_paths indices futures w
  = (World (fs w) (trace w ++ map EvSubmit batches),
     inr (futures ++ map Queued batches)).
Proof.
  cbn zeta. revert futures w.
  induction indices as [| i indices IH]; intros futures w.
  - cbn. rewrite !app_nil_r. by destruct w.
  - cbn [submit_loop]. run_M. rewrite IH. cbn [fs trace map].
    by rewrite <- !app_assoc.
Qed.

(** C4.  For every list of [N] input paths, [predict] cuts
    [n_batches = ceil(N / 8)] batches; batch [i] is the slice
    [image_paths[8i : 8i + 8]], whose [j]-th path is the input at position
    [8i + j] and which holds [min 8 (N - 8i)] paths, so at least one and at
    most eight; the batches put end to end give the input list back; and
    the submit loop submits exactly these batches, in this order, whatever
    the world it runs in. *)
Theorem C4_batch_partition (image_paths : list string) :
  let n_batches := Py.ceil_div (Py.len image_paths) BATCH_SIZE in
  let batches := image_batches image_paths in
  (BATCH_SIZE * (n_batches - 1) < Py.len image_paths <= BATCH_SIZE * n_batches) /\
  Py.len batches = n_batches /\
  (forall i : nat, Z.of_nat i < n_batches ->
     exists b,
       batches !! i = Some b /\
       b = Py.slice image_paths (BATCH_SIZE * Z.of_nat i)
                    (BATCH_SIZE * (Z.of_nat i + 1)) /\
       (forall j : nat, (j < 8)%nat -> b !! j = image_paths !! (8 * i + j)%nat) /\
       length b = Nat.min 8 (length image_paths - 8 * i) /\
       (0 < length b <= 8)%nat) /\
  concat batches = image_paths /\
  (forall w : world,
     submit_loop image_paths (Py.range n_batches) [] w
     = (World (fs w) (trace w ++ map EvSubmit batches),
        inr (map Queued batches))).
Proof.
  cbn zeta. change BATCH_SIZE with 8.
  pose proof (ceil_div_8_bounds (Py.len image_paths)) as Hn.
  set (n := Py.ceil_div (Py.len image_paths) 8) in *.
  assert (Hlen : length (image_batches image_paths) = Z.to_nat n).
  { rewrite image_batches_chunks. fold n. by rewrite length_map, length_seq. }
  unfold Py.len in Hn |- *.
  split_and!.
  - lia.
  - lia.
  - lia.
  - intros i Hi.
    exists (take 8 (drop (8 * i) image_paths)). split_and!.
    + rewrite image_batches_chunks. fold (Py.len image_paths). fold n.
      rewrite list_lookup_fmap, lookup_seq_lt by lia. done.
    + rewrite slice_take_drop by lia. f_equal; [| f_equal]; lia.
    + intros j Hj. by rewrite lookup_take_lt, lookup_drop.
    + by rewrite length_take, length_drop.
    + rewrite length_take, length_drop. lia.
    + rewrite length_take, length_drop. lia.
  - rewrite image_batches_chunks, concat_chunks.
    fold (Py.len image_paths). fold n. apply take_ge. lia.
  - intros w. rewrite submit_loop_run. unfold image_batches.
    change BATCH_SIZE with 8. done.
Qed.

(** ** The file system: listing, removal, directory creation *)

Lemma elem_of_glob (pattern : string) (fs0 : FS) (k : string) :
  k ∈ Os.glob pattern fs0 <->
  Os.glob_matches pattern k = true /\ is_Some (fs0 !! k).
Proof.
  unfold Os.glob. rewrite list_elem_of_In, filter_In, <- list_elem_of_In.
  rewrite list_elem_of_fmap. split.
  - intros [([k' v] & -> & Hin) Hm]. split; [done |].
    apply elem_of_map_to_list in Hin. by exists v.
  - intros [Hm [v Hv]]. split; [| done].
    exists (k, v). split; [done |]. by apply elem_of_map_to_list.
Qed.

Lemma glob_NoDup (pattern : string) (fs0 : FS) : NoDup (Os.glob pattern fs0).
Proof.
  unfold Os.glob. apply NoDup_ListNoDup, List.NoDup_filter, NoDup_ListNoDup.
  apply NoDup_fst_map_to_list.
Qed.

Lemma lookup_foldl_delete (l : list string) (m : FS) (k : string) :
  foldl (fun acc file => delete file acc) m l !! k
  = if decide (k ∈ l) then None else m !! k.
Proof.
  revert m. induction l as [| x l IH]; intros m; cbn [foldl].
  - rewrite decide_False; [done | apply not_elem_of_nil].
  - rewrite IH. destruct (decide (k = x)) as [-> | Hne].
    + rewrite lookup_delete_eq, (decide_True (P := x ∈ x :: l)) by left.
      by case_decide.
    + rewrite lookup_delete_ne by done.
      destruct (decide (k ∈ l)) as [Hin | Hin].
      * by rewrite decide_True by (by right).
      * rewrite decide_False; [done |].
        by intros [? | ?]%elem_of_cons.
Qed.

Lemma lookup_remove_files (pattern : string) (fs0 : FS) (k : string) :
  remove_files pattern fs0 !! k
  = if Os.glob_matches pattern k then None else fs0 !! k.
Proof.
  unfold remove_files. rewrite lookup_foldl_delete.
  case_decide as Hin.
  - apply elem_of_glob in Hin as [-> _]. done.
  - destruct (Os.glob_matches pattern k) eqn:Hm; [| done].
    destruct (fs0 !! k) eqn:Hk; [| done].
    exfalso. apply Hin, elem_of_glob. eauto.
Qed.

Lemma glob_nil_iff (pattern : string) (fs0 : FS) :
  Os.glob pattern fs0 = [] <->
  forall k, Os.glob_matches pattern k = true -> fs0 !! k = None.
Proof.
  split.
  - intros Hnil k Hm. destruct (fs0 !! k) eqn:Hk; [| done].
    assert (k ∈ Os.glob pattern fs0) as Hin by (apply elem_of_glob; eauto).
    rewrite Hnil in Hin. by apply not_elem_of_nil in Hin.
  - intros Hall. apply elem_of_nil_inv. intros k [Hm [v Hv]]%elem_of_glob.
    rewrite (Hall k Hm) in Hv. done.
Qed.

Lemma glob_remove_files (pattern : string) (fs0 : FS) :
  Os.glob pattern (remove_files pattern fs0) = [].
Proof.
  apply glob_nil_iff. intros k Hm. by rewrite lookup_remove_files, Hm.
Qed.

Lemma remove_files_nothing (pattern : string) (fs0 : FS) :
  Os.glob pattern fs0 = [] -> remove_files pattern fs0 = fs0.
Proof. unfold remove_files. by intros ->. Qed.

Lemma remove_files_idemp (pattern : string) (fs0 : FS) :
  remove_files pattern (remove_files pattern fs0) = remove_files pattern fs0.
Proof. apply remove_files_nothing, glob_remove_files. Qed.

Lemma cleanup_run (prediction_path : string) (w : world) :
  cleanup prediction_path w
  = (World (remove_files (prediction_path +:+ "/*.png")
              (remove_files (prediction_path +:+ "/*.xml") (fs w)))
           (trace w ++ [EvRemoveFiles (prediction_path +:+ "/*.xml");
                        EvRemoveFiles (prediction_path +:+ "/*.png")]),
     inr tt).
Proof.
  unfold cleanup, do_remove_files. run_M. cbn [fs trace].
  by rewrite <- app_assoc.
Qed.

(** C7.  The cleanup step never raises, on any directory; run twice in
    succession it leaves the file system exactly as one run does, and
    neither pattern lists anything afterwards.  Removing by a pattern that
    lists nothing (every file it could name is already absent) changes
    nothing and is not an error, and removing twice by the same pattern is
    the same as removing once. *)
Theorem C7_cleanup_idempotent (prediction_path : string) (w : world) :
  let once := cleanup prediction_path w in
  let twice := cleanup prediction_path once.1 in
  once.2 = inr tt /\
  twice.2 = inr tt /\
  fs twice.1 = fs once.1 /\
  Os.glob (prediction_path +:+ "/*.xml") (fs once.1) = [] /\
  Os.glob (prediction_path +:+ "/*.png") (fs once.1) = [] /\
  (forall pattern w0,
      Os.glob pattern (fs w0) = [] ->
      do_remove_files pattern w0
      = (World (fs w0) (trace w0 ++ [EvRemoveFiles pattern]), inr tt)) /\
  (forall pattern fs0,
      remove_files pattern (remove_files pattern fs0)
      = remove_files pattern fs0).
Proof.
  cbn zeta. rewrite !cleanup_run. cbn [fst snd fs trace].
  set (xml := prediction_path +:+ "/*.xml").
  set (png := prediction_path +:+ "/*.png").
  assert (Hxml : Os.glob xml (remove_files png (remove_files xml (fs w))) = []).
  { apply glob_nil_iff. intros k Hm.
    by rewrite !lookup_remove_files, Hm; destruct (Os.glob_matches png k). }
  split_and!; try done.
  - rewrite (remove_files_nothing xml) by done. apply remove_files_idemp.
  - apply glob_remove_files.
  - intros pattern w0 Hnil. unfold do_remove_files. run_M. cbn [fs trace].
    by rewrite remove_files_nothing.
  - apply remove_files_idemp.
Qed.

(** ** The course of one run of [predict] *)

Lemma makedirs_run (path : string) (w : world) :
  makedirs path w
  = match Os.makedirs_exist_ok path (fs w) with
    | inl e => (World (fs w) (trace w ++ [EvMakedirs path]), inl e)
    | inr fs1 => (World fs1 (trace w ++ [EvMakedirs path]), inr tt)
    end.
Proof.
  unfold makedirs. run_M. cbn [fs trace].
  by destruct (Os.makedirs_exist_ok path (fs w)).
Qed.

Lemma split_no_slash (n : string) :
  Os.rsplit_slash n = None -> Py.split "/" n = [n].
Proof.
  induction n as [| c n IH]; cbn [Os.rsplit_slash Py.split]; [done |].
  destruct (Os.rsplit_slash n) as [[h t] |]; [done |].
  destruct (Ascii.eqb c "/"); [done |]. intros _. by rewrite IH.
Qed.






Section Runs.

Context (ext : Externals).

Lemma predict_loaded_run (sched : list nat) (model : Model ext)
    (input_path prediction_path : string) (w : world) :
  predict_loaded ext sched model input_path prediction_path w
  = match Os.makedirs_exist_ok prediction_path (fs w) with
    | inl e => (World (fs w) (trace w ++ [EvMakedirs prediction_path]), inl e)
    | inr fs1 =>
        let st := drive ext model prediction_path sched
                    (pool_start ext input_path w fs1 prediction_path) in
        let called := trace st.1 ++
              [EvWaitReturned;
               EvGeoreference prediction_path prediction_path true] in
        match georeference ext prediction_path prediction_path true (fs st.1) with
        | inl e => (World (fs st.1) called, inl e)
        | inr fs4 =>
            (World (remove_files (prediction_path +:+ "/*.png")
                      (remove_files (prediction_path +:+ "/*.xml") fs4))
                   (called ++
                      [EvRemoveFiles (prediction_path +:+ "/*.xml");
                       EvRemoveFiles (prediction_path +:+ "/*.png")]),
             inr tt)
        end
    end.
Proof.
  unfold predict_loaded. unfold bind at 1. rewrite makedirs_run.
  destruct (Os.makedirs_exist_ok prediction_path (fs w)) as [e | fs1]; [done |].
  unfold do_glob. run_M. cbn [fs trace].
  rewrite submit_loop_run. cbn [fs trace].
  unfold run_pool, do_georeference, pool_start, image_batches. run_M.
  rewrite app_nil_l, <- !app_assoc. cbn [app].
  match goal with |- context [drive ext model prediction_path sched ?s] =>
    set (st := drive ext model prediction_path sched s) end.
  cbn [fs trace].
  destruct (georeference ext prediction_path prediction_path true (fs st.1))
    as [e | fs4].
  - by rewrite <- !app_assoc.
  - rewrite cleanup_run. cbn [fs trace]. by rewrite <- !app_assoc.
Qed.

Lemma predict_run (sched : list nat)
    (checkpoint_path input_path prediction_path : string) (w : world) :
  predict ext sched checkpoint_path input_path prediction_path w
  = let w1 := World (fs w) (trace w ++ [EvLoadModel checkpoint_path]) in
    match load_model ext (fs w) checkpoint_path with
    | inl e => (w1, inl e)
    | inr model => predict_loaded ext sched model input_path prediction_path w1
    end.
Proof.
  unfold predict. run_M. cbn [fs trace].
  by destruct (load_model ext (fs w) checkpoint_path).
Qed.

End Runs.

(** ** The output directory (line 70) *)


(** ** The pool under any scheduler *)

Lemma done_count_app (k : nat) (evs evs' : list event) :
  done_count k (evs ++ evs') = (done_count k evs + done_count k evs')%nat.
Proof. unfold done_count. by rewrite List.filter_app, length_app. Qed.

Lemma done_count_work (k : nat) (evs : list event) :
  Forall (fun e => work_event e = true) evs -> done_count k evs = 0%nat.
Proof.
  unfold done_count. induction 1 as [| e evs He _ IH]; [done |].
  cbn [List.filter]. by destruct e.
Qed.

Lemma work_event_pool_event (evs : list event) :
  Forall (fun e => work_event e = true) evs ->
  Forall (fun e => pool_event e = true) evs.
Proof. intros H. eapply Forall_impl; [exact H |]. by intros []. Qed.

Lemma enumerate_length {A} (l : list A) :
  length (Py.enumerate l) = length l.
Proof.
  unfold Py.enumerate. generalize 0.
  induction l as [| x l IH]; intros i; cbn; [done | by rewrite IH].
Qed.

Lemma world_eta (w : world) : World (fs w) (trace w ++ []) = w.
Proof. destruct w. cbn. by rewrite app_nil_r. Qed.

Section Pool.

Context (ext : Externals) (model : Model ext) (prediction_path : string).

Lemma infer_run (image_batch : list string) (w : world) :
  exists r evs,
    infer ext model image_batch w = (World (fs w) (trace w ++ evs), r) /\
    (evs = [] \/ evs = [EvInference image_batch]).
Proof.
  unfold infer. run_M.
  destruct (open_images ext (fs w) image_batch) as [e | images].
  { exists (inl e), []. by rewrite world_eta; auto. }
  destruct (Np.reshape_m1 images _) as [e | reshaped].
  { exists (inl e), []. by rewrite world_eta; auto. }
  cbn [fs trace].
  destruct (model reshaped) as [e | scores]; [by eauto |].
  destruct (Np.argmax_last _ _ scores) as [e | classes]; by eauto.
Qed.

Lemma save_one_run (preds : ndarray Z) (ip : Z * string) (w : world) :
  save_one prediction_path preds ip w
  = match Np.getitem preds ip.1 with
    | inl e => (w, inl e)
    | inr mask =>
        let filename := mask_filename prediction_path ip.2 in
        (World (save_mask mask filename (fs w))
               (trace w ++ [EvSaveMask filename]), inr tt)
    end.
Proof.
  unfold save_one. run_M. by destruct (Np.getitem preds ip.1).
Qed.

Lemma task_step_events (t t' : task) (w w' : world) :
  task_step ext model prediction_path t w = Some (t', w') ->
  exists evs,
    trace w' = trace w ++ evs /\
    Forall (fun e => work_event e = true) evs /\
    (task_fuel t' < task_fuel t)%nat.
Proof.
  destruct t as [image_batch | preds [| ip rest] | exc]; cbn [task_step].
  - destruct (infer_run image_batch w) as (r & evs & -> & Hevs).
    assert (Forall (fun e => work_event e = true) evs)
      by (destruct Hevs as [-> | ->]; repeat constructor).
    destruct r as [e | preds]; intros [= <- <-]; exists evs;
      cbn [trace task_fuel]; split_and!; try done; try lia.
    rewrite enumerate_length. lia.
  - intros [= <- <-]. exists []. rewrite app_nil_r. cbn. split_and!; [done.. | lia].
  - rewrite save_one_run.
    destruct (Np.getitem preds ip.1) as [e | mask]; intros [= <- <-].
    + exists []. rewrite app_nil_r. cbn. split_and!; [done.. | lia].
    + exists [EvSaveMask (mask_filename prediction_path ip.2)].
      cbn. split_and!; [done | by repeat constructor | lia].
  - done.
Qed.

Lemma pick_inv (k : nat) (st st' : world * list task) :
  pick ext model prediction_path k st = Some st' ->
  exists t t' w',
    st.2 !! k = Some t /\
    task_step ext model prediction_path t st.1 = Some (t', w') /\
    st' = (note_done k t' w', <[k := t']> st.2).
Proof.
  unfold pick. destruct (st.2 !! k) as [t |]; [| done].
  destruct (task_step ext model prediction_path t st.1) as [[t' w'] |] eqn:Hs;
    [| done].
  intros [= <-]. by exists t, t', w'.
Qed.

Lemma pick_None (k : nat) (st : world * list task) :
  pick ext model prediction_path k st = None <->
  forall t, st.2 !! k = Some t -> is_finished t = true.
Proof.
  unfold pick. destruct (st.2 !! k) as [t |]; [| by split].
  destruct (task_step ext model prediction_path t st.1) as [[t' w'] |] eqn:Hs.
  - split; [done |]. intros Hf. specialize (Hf t eq_refl).
    by destruct t.
  - split; [| done]. intros _ t0 [= <-].
    destruct t as [b | preds [| ip rest] | exc]; cbn [task_step] in Hs;
      try done.
    + destruct (infer ext model b st.1) as [w' [e | p]]; done.
    + destruct (save_one prediction_path preds ip st.1) as [w' [e | []]]; done.
Qed.

Lemma note_done_trace (k : nat) (t : task) (w : world) :
  exists evs,
    trace (note_done k t w) = trace w ++ evs /\
    fs (note_done k t w) = fs w /\
    (forall j, done_count j evs
               = if is_finished t && Nat.eqb k j then 1%nat else 0%nat) /\
    Forall (fun e => pool_event e = true) evs.
Proof.
  destruct t as [b | preds rest | exc]; cbn [note_done is_finished andb].
  - exists []. by rewrite app_nil_r.
  - exists []. by rewrite app_nil_r.
  - exists [EvFutureDone k exc]. cbn [trace fs]. split_and!; try done.
    + intros j. unfold done_count. cbn. by destruct (Nat.eqb k j).
    + by repeat constructor.
Qed.

Lemma pool_inv_step (tr0 : list event) (n : nat) (st st' : world * list task) :
  pool_inv tr0 n st ->
  pool_step ext model prediction_path st st' ->
  pool_inv tr0 n st'.
Proof.
  intros (evs & Htr & Hpool & Hlen & Hcount) Hstep'.
  inversion Hstep' as [k ? ? Hpick]; subst. clear Hstep'.
  apply pick_inv in Hpick as (t & t' & w' & Hk & Hstep & ->).
  destruct (task_step_events _ _ _ _ Hstep) as (evs1 & Htr1 & Hwork & _).
  destruct (note_done_trace k t' w') as (evs2 & Htr2 & _ & Hcount2 & Hpool2).
  assert (Hnf : is_finished t = false) by (by destruct t).
  exists (evs ++ evs1 ++ evs2). cbn [fst snd]. split_and!.
  - by rewrite Htr2, Htr1, Htr, <- !app_assoc.
  - rewrite !Forall_app. split_and!; [done | by apply work_event_pool_event | done].
  - by rewrite length_insert.
  - intros j. rewrite !done_count_app, (done_count_work j evs1), Hcount, Hcount2 by done.
    destruct (decide (k = j)) as [<- | Hne].
    + rewrite list_lookup_insert_eq by (by eapply lookup_lt_Some).
      rewrite Hk, Hnf, Nat.eqb_refl, andb_true_r. by destruct (is_finished t').
    + rewrite list_lookup_insert_ne by done.
      apply Nat.eqb_neq in Hne. rewrite Hne, andb_false_r. lia.
Qed.

End Pool.

Section Drive.

Context (ext : Externals) (model : Model ext) (prediction_path : string).

Lemma task_fuel_0 (t : task) : task_fuel t = 0%nat -> is_finished t = true.
Proof. destruct t; cbn; [lia | lia | done]. Qed.

Lemma run_task_pool (fuel k : nat) (st : world * list task) :
  length (run_task ext model prediction_path fuel k st).2 = length st.2 /\
  forall j, j <> k ->
    (run_task ext model prediction_path fuel k st).2 !! j = st.2 !! j.
Proof.
  revert st. induction fuel as [| fuel IH]; intros st; cbn [run_task]; [done |].
  destruct (pick ext model prediction_path k st) as [st' |] eqn:Hp; [| done].
  apply pick_inv in Hp as (t & t' & w' & _ & _ & ->).
  destruct (IH (note_done k t' w', <[k := t']> st.2)) as [Hl Ho].
  cbn [snd] in *. split.
  - by rewrite Hl, length_insert.
  - intros j Hj. by rewrite Ho, list_lookup_insert_ne.
Qed.

Lemma run_task_finished (fuel k : nat) (st : world * list task) (t : task) :
  st.2 !! k = Some t -> (task_fuel t <= fuel)%nat ->
  exists t', (run_task ext model prediction_path fuel k st).2 !! k = Some t' /\
             is_finished t' = true.
Proof.
  revert st t. induction fuel as [| fuel IH]; intros st t Hk Hf; cbn [run_task].
  - exists t. split; [done |]. apply task_fuel_0. lia.
  - destruct (pick ext model prediction_path k st) as [st' |] eqn:Hp.
    + apply pick_inv in Hp as (t0 & t' & w' & Hk0 & Hs & ->).
      assert (t0 = t) as -> by congruence.
      destruct (task_step_events _ _ _ _ _ _ _ Hs) as (_ & _ & _ & Hlt).
      apply (IH _ t'); [| lia]. cbn [snd].
      apply list_lookup_insert_eq. by eapply lookup_lt_Some.
    + exists t. split; [done |]. by eapply pick_None.
Qed.

Lemma run_task_rtc (fuel k : nat) (st : world * list task) :
  rtc (pool_step ext model prediction_path) st
      (run_task ext model prediction_path fuel k st).
Proof.
  revert st. induction fuel as [| fuel IH]; intros st; cbn [run_task]; [done |].
  destruct (pick ext model prediction_path k st) as [st' |] eqn:Hp; [| done].
  eapply rtc_l; [by econstructor | apply IH].
Qed.

Lemma drain_prefix (m : nat) (st : world * list task) :
  (m <= length st.2)%nat ->
  let st' := foldl (fun acc k =>
                      run_task ext model prediction_path (fuel_of k acc) k acc)
                   st (seq 0 m) in
  length st'.2 = length st.2 /\
  (forall j t, (j < m)%nat -> st'.2 !! j = Some t -> is_finished t = true) /\
  rtc (pool_step ext model prediction_path) st st'.
Proof.
  cbn zeta. induction m as [| m IH]; intros Hm.
  - cbn. split_and!; [done | lia | done].
  - rewrite seq_S, foldl_app. cbn [foldl Nat.add].
    destruct IH as (Hl & Hfin & Hrtc); [lia |].
    set (st1 := foldl _ st (seq 0 m)) in *.
    destruct (run_task_pool (fuel_of m st1) m st1) as [Hl2 Ho].
    split_and!.
    + congruence.
    + intros j t Hj Hjt. destruct (decide (j = m)) as [-> | Hne].
      * destruct (lookup_lt_is_Some_2 st1.2 m) as [t1 Ht1]; [lia |].
        destruct (run_task_finished (fuel_of m st1) m st1 t1 Ht1)
          as (t' & Ht' & Hf); [unfold fuel_of; by rewrite Ht1 |].
        congruence.
      * rewrite Ho in Hjt by done. apply (Hfin j); [lia | done].
    + etrans; [exact Hrtc | apply run_task_rtc].
Qed.

Lemma sched_rtc (sched : list nat) (st : world * list task) :
  rtc (pool_step ext model prediction_path) st
      (foldl (fun acc k => default acc (pick ext model prediction_path k acc))
             st sched).
Proof.
  revert st. induction sched as [| k sched IH]; intros st; cbn [foldl]; [done |].
  destruct (pick ext model prediction_path k st) as [st' |] eqn:Hp; cbn [default].
  - eapply rtc_l; [by econstructor | apply IH].
  - apply IH.
Qed.

Lemma pool_step_length (st st' : world * list task) :
  pool_step ext model prediction_path st st' -> length st'.2 = length st.2.
Proof.
  intros [k ? ? Hp]. apply pick_inv in Hp as (t & t' & w' & _ & _ & ->).
  cbn [snd]. apply length_insert.
Qed.

Lemma pool_rtc_length (st st' : world * list task) :
  rtc (pool_step ext model prediction_path) st st' ->
  length st'.2 = length st.2.
Proof.
  induction 1 as [| st st1 st2 Hs _ IH]; [done |].
  rewrite IH. by apply pool_step_length.
Qed.

(** Whatever the scheduler does, the pool ends with every future done. *)
Lemma drive_finished (sched : list nat) (st : world * list task) :
  let st' := drive ext model prediction_path sched st in
  rtc (pool_step ext model prediction_path) st st' /\
  length st'.2 = length st.2 /\
  Forall (fun t => is_finished t = true) st'.2.
Proof.
  cbn zeta. unfold drive, drain.
  pose proof (sched_rtc sched st) as Hs.
  set (st1 := foldl _ st sched) in *.
  destruct (drain_prefix (length st1.2) st1) as (Hl & Hfin & Hrtc); [done |].
  split_and!.
  - etrans; done.
  - rewrite Hl. by apply pool_rtc_length.
  - apply Forall_lookup. intros j t Hj. apply (Hfin j t); [| done].
    rewrite <- Hl. by eapply lookup_lt_Some.
Qed.

Lemma pool_inv_rtc (tr0 : list event) (n : nat) (st st' : world * list task) :
  pool_inv tr0 n st ->
  rtc (pool_step ext model prediction_path) st st' ->
  pool_inv tr0 n st'.
Proof.
  intros Hinv Hrtc. induction Hrtc as [| st st1 st2 Hs _ IH]; [done |].
  apply IH. by eapply pool_inv_step.
Qed.

Lemma pool_inv_start (fs0 : FS) (tr0 : list event) (batches : list (list string)) :
  pool_inv tr0 (length batches) (World fs0 tr0, map Queued batches).
Proof.
  exists []. cbn [fst snd trace]. split_and!.
  - by rewrite app_nil_r.
  - constructor.
  - by rewrite length_map.
  - intros k. change (done_count k []) with 0%nat.
    rewrite list_lookup_fmap. by destruct (batches !! k).
Qed.

(** The pool of [predict]: started with every batch queued, it ends with
    every future done, having added only pool events to the trace, among
    them exactly one completion per submitted batch. *)
Lemma drive_queued (sched : list nat) (fs0 : FS) (tr0 : list event)
    (batches : list (list string)) :
  let st' := drive ext model prediction_path sched
               (World fs0 tr0, map Queued batches) in
  exists evs,
    trace st'.1 = tr0 ++ evs /\
    Forall (fun e => pool_event e = true) evs /\
    length st'.2 = length batches /\
    Forall (fun t => is_finished t = true) st'.2 /\
    (forall k, done_count k evs
               = if decide (k < length batches)%nat then 1%nat else 0%nat).
Proof.
  cbn zeta.
  destruct (drive_finished sched (World fs0 tr0, map Queued batches))
    as (Hrtc & Hl & Hfin).
  destruct (pool_inv_rtc tr0 (length batches) _ _
              (pool_inv_start fs0 tr0 batches) Hrtc)
    as (evs & Htr & Hpool & Hlen & Hcount).
  exists evs. split_and!; try done.
  intros k. rewrite Hcount. case_decide as Hk.
  - destruct (lookup_lt_is_Some_2 _ k ltac:(by rewrite Hlen)) as [t Ht].
    rewrite Ht. rewrite Forall_lookup in Hfin. by rewrite (Hfin k t Ht).
  - by rewrite lookup_ge_None_2 by lia.
Qed.

End Drive.

(** ** Order of the stages of [predict] *)

Lemma drive_nil (ext : Externals) (model : Model ext) (prediction_path : string)
    (sched : list nat) (w : world) :
  drive ext model prediction_path sched (w, []) = (w, []).
Proof.
  unfold drive.
  assert (foldl (fun acc k => default acc (pick ext model prediction_path k acc))
                (w, []) sched = (w, [])) as ->; [| done].
  induction sched as [| k sched IH]; [done |]. cbn [foldl]. exact IH.
Qed.



(** C9.  When the model loads, the output directory is in place and the
    listing of [{input_path}/*.png] is empty, [predict] computes zero
    batches, submits nothing and never calls the model: under every
    scheduler the run adds to the trace the load, the directory creation,
    the listing, the return of [wait], the georeferencing call and -- unless
    the georeferencer raises -- the two removals, and nothing else; the file
    system it ends in is the georeferencer's result with both patterns
    removed, and the outcome is the georeferencer's. *)
Theorem C9_no_tiles (ext : Externals) (sched : list nat)
    (checkpoint_path input_path prediction_path : string) (w : world)
    (model : Model ext) (fs1 : FS) :
  load_model ext (fs w) checkpoint_path = inr model ->
  Os.makedirs_exist_ok prediction_path (fs w) = inr fs1 ->
  glob ext fs1 (input_path +:+ "/*.png") = [] ->
  let stages := [EvLoadModel checkpoint_path; EvMakedirs prediction_path;
                 EvGlob (input_path +:+ "/*.png"); EvWaitReturned;
                 EvGeoreference prediction_path prediction_path true] in
  let r := predict ext sched checkpoint_path input_path prediction_path w in
  Py.ceil_div (Py.len (glob ext fs1 (input_path +:+ "/*.png"))) BATCH_SIZE = 0 /\
  image_batches (glob ext fs1 (input_path +:+ "/*.png")) = [] /\
  r = match georeference ext prediction_path prediction_path true fs1 with
      | inl e => (World fs1 (trace w ++ stages), inl e)
      | inr fs4 =>
          (World (remove_files (prediction_path +:+ "/*.png")
                    (remove_files (prediction_path +:+ "/*.xml") fs4))
                 (trace w ++ stages
                  ++ [EvRemoveFiles (prediction_path +:+ "/*.xml");
                      EvRemoveFiles (prediction_path +:+ "/*.png")]),
           inr tt)
      end /\
  (exists evs, trace r.1 = trace w ++ evs /\
     List.filter is_submit evs = [] /\
     List.filter is_inference evs = [] /\
     length (List.filter is_georeference evs) = 1%nat).
Proof.
  intros Hload Hmk Hglob. cbn zeta.
  assert (Hrun :
    predict ext sched checkpoint_path input_path prediction_path w
    = match georeference ext prediction_path prediction_path true fs1 with
      | inl e =>
          (World fs1
             (trace w ++ [EvLoadModel checkpoint_path; EvMakedirs prediction_path;
                          EvGlob (input_path +:+ "/*.png"); EvWaitReturned;
                          EvGeoreference prediction_path prediction_path true]),
           inl e)
      | inr fs4 =>
          (World (remove_files (prediction_path +:+ "/*.png")
                    (remove_files (prediction_path +:+ "/*.xml") fs4))
                 (trace w ++ [EvLoadModel checkpoint_path;
                              EvMakedirs prediction_path;
                              EvGlob (input_path +:+ "/*.png"); EvWaitReturned;
                              EvGeoreference prediction_path prediction_path true]
                  ++ [EvRemoveFiles (prediction_path +:+ "/*.xml");
                      EvRemoveFiles (prediction_path +:+ "/*.png")]),
           inr tt)
      end).
  { rewrite predict_run, Hload. cbn zeta.
    rewrite predict_loaded_run. cbn [fs trace]. rewrite Hmk. cbn zeta.
    unfold pool_start. rewrite Hglob. cbn [image_batches].
    change (image_batches []) with (@nil (list string)).
    cbn [map]. rewrite drive_nil. cbn [fst snd fs trace].
    destruct (georeference ext prediction_path prediction_path true fs1);
      by rewrite <- !app_assoc. }
  rewrite Hglob. split_and!; [done | done | exact Hrun |].
  rewrite Hrun.
  destruct (georeference ext prediction_path prediction_path true fs1);
    cbn [fst trace]; eexists; (split; [reflexivity |]); done.
Qed.

(** ** [process_batch] on its own (lines 25-40) *)

Lemma save_loop_run (prediction_path : string) (preds : ndarray Z)
    (rest : list (Z * string)) (w : world) :
  save_loop prediction_path preds rest w
  = (World (foldl (save_at prediction_path preds) (fs w)
                  (saved_prefix preds rest))
           (trace w ++ map (fun ip => EvSaveMask (mask_filename prediction_path ip.2))
                           (saved_prefix preds rest)),
     loop_outcome preds rest).
Proof.
  revert w. induction rest as [| ip rest IH]; intros w.
  - cbn. by rewrite world_eta.
  - cbn [save_loop saved_prefix loop_outcome]. unfold bind at 1.
    rewrite save_one_run.
    destruct (Np.getitem preds ip.1) as [e | mask] eqn:Hg.
    + cbn. by rewrite world_eta.
    + cbv beta iota zeta. rewrite IH. cbn [fs trace foldl map].
      assert (save_at prediction_path preds (fs w) ip
              = save_mask mask (mask_filename prediction_path ip.2) (fs w)) as ->
        by (unfold save_at; by rewrite Hg).
      by rewrite <- app_assoc.
Qed.

Lemma getitem_in_range (preds : ndarray Z) (n : Z) (inner : list Z) (idx : Z) :
  shape preds = n :: inner -> 0 <= idx ->
  (idx < n -> exists mask, Np.getitem preds idx = inr mask) /\
  (n <= idx -> Np.getitem preds idx = inl IndexError).
Proof.
  intros Hs Hi. unfold Np.getitem. rewrite Hs.
  destruct (Z.ltb_spec idx 0); [lia |].
  split; intros Hn.
  - destruct (Z.leb_spec 0 idx), (Z.ltb_spec idx n); try lia. cbn. eauto.
  - destruct (Z.leb_spec 0 idx), (Z.ltb_spec idx n); try lia. done.
Qed.

Lemma saved_prefix_enumerate (preds : ndarray Z) (n : Z) (inner : list Z)
    (i : Z) (l : list string) :
  shape preds = n :: inner -> 0 <= i <= n ->
  saved_prefix preds (Py.enumerate_from i l)
    = Py.enumerate_from i (take (Z.to_nat (n - i)) l) /\
  loop_outcome preds (Py.enumerate_from i l)
    = if Py.len l <=? n - i then inr tt else inl IndexError.
Proof.
  intros Hs. revert i. induction l as [| p l IH]; intros i Hi.
  - cbn. rewrite take_nil. split; [done |].
    destruct (Z.leb_spec (Py.len (@nil string)) (n - i)) as [_ | Hlt]; [done |].
    unfold Py.len in Hlt. cbn in Hlt. lia.
  - cbn [Py.enumerate_from saved_prefix loop_outcome fst].
    destruct (getitem_in_range preds n inner i Hs ltac:(lia)) as [Hok Hbad].
    unfold Py.len. cbn [length].
    destruct (Z.lt_ge_cases i n) as [Hlt | Hge].
    + destruct (Hok Hlt) as [mask ->].
      destruct (IH (i + 1) ltac:(lia)) as [-> ->].
      replace (Z.to_nat (n - i)) with (S (Z.to_nat (n - (i + 1)))) by lia.
      cbn [take Py.enumerate_from]. split; [done |].
      unfold Py.len.
      destruct (Z.leb_spec (Z.of_nat (length l)) (n - (i + 1))),
               (Z.leb_spec (Z.of_nat (S (length l))) (n - i)); try done; lia.
    + rewrite (Hbad Hge).
      replace (Z.to_nat (n - i)) with 0%nat by lia. cbn [take Py.enumerate_from].
      split; [done |].
      destruct (Z.leb_spec (Z.of_nat (S (length l))) (n - i)); [lia | done].
Qed.

Lemma enumerate_from_snd {A} (i : Z) (l : list A) :
  map snd (Py.enumerate_from i l) = l.
Proof.
  revert i. induction l as [| x l IH]; intros i; cbn; [done | by rewrite IH].
Qed.

Lemma enumerate_from_map_snd {A B} (f : A -> B) (i : Z) (l : list A) :
  map (fun ip => f ip.2) (Py.enumerate_from i l) = map f l.
Proof.
  revert i. induction l as [| x l IH]; intros i; cbn; [done | by rewrite IH].
Qed.

Lemma enumerate_from_lookup {A} (i : Z) (l : list A) (j : nat) :
  Py.enumerate_from i l !! j = (fun x => (i + Z.of_nat j, x)) <$> l !! j.
Proof.
  revert i j. induction l as [| x l IH]; intros i j; [done |].
  destruct j as [| j]; cbn.
  - by rewrite Z.add_0_r.
  - rewrite IH. destruct (l !! j); [| done]. cbn. do 2 f_equal. lia.
Qed.

Lemma foldl_save_at_other (prediction_path : string) (preds : ndarray Z)
    (rest : list (Z * string)) (fs0 : FS) (k : string) :
  k ∉ map (fun ip => mask_filename prediction_path ip.2) rest ->
  foldl (save_at prediction_path preds) fs0 rest !! k = fs0 !! k.
Proof.
  revert fs0. induction rest as [| ip rest IH]; intros fs0 Hk; [done |].
  cbn [foldl]. cbn [map] in Hk. apply not_elem_of_cons in Hk as [Hne Hk].
  rewrite IH by done. unfold save_at, save_mask.
  destruct (Np.getitem preds ip.1); [done |]. by rewrite lookup_insert_ne.
Qed.

Lemma foldl_save_at_lookup (prediction_path : string) (preds : ndarray Z)
    (rest : list (Z * string)) (fs0 : FS) (ip : Z * string) (mask : ndarray Z) :
  NoDup (map (fun ip => mask_filename prediction_path ip.2) rest) ->
  ip ∈ rest -> Np.getitem preds ip.1 = inr mask ->
  foldl (save_at prediction_path preds) fs0 rest
    !! mask_filename prediction_path ip.2 = Some (File (Mask mask)).
Proof.
  revert fs0. induction rest as [| ip0 rest IH]; intros fs0 Hnd Hin Hg.
  - by apply elem_of_nil in Hin.
  - cbn [map] in Hnd. apply NoDup_cons in Hnd as [Hfresh Hnd].
    cbn [foldl]. apply elem_of_cons in Hin as [-> | Hin].
    + rewrite foldl_save_at_other by done.
      unfold save_at, save_mask. rewrite Hg. apply lookup_insert_eq.
    + by apply IH.
Qed.

Lemma process_batch_run (ext : Externals) (image_batch : list string)
    (model : Model ext) (prediction_path : string) (w : world) :
  process_batch ext image_batch model prediction_path w
  = match infer ext model image_batch w with
    | (w', inl e) => (w', inl e)
    | (w', inr preds) =>
        save_loop prediction_path preds (Py.enumerate image_batch) w'
    end.
Proof. done. Qed.

Lemma argmax_last_shape {A} (leb : A -> A -> bool) (isnan : A -> bool)
    (a : ndarray A) (outer : list Z) (c : Z) :
  shape a = outer ++ [c] -> 0 < c ->
  exists classes,
    Np.argmax_last leb isnan a = inr classes /\ shape classes = outer.
Proof.
  intros Hs Hc. unfold Np.argmax_last. rewrite Hs, rev_app_distr. cbn.
  destruct (Z.leb_spec c 0); [lia |]. eexists. split; [done |].
  cbn. apply rev_involutive.
Qed.

(** ** The shape precondition of [process_batch] (lines 26-38) *)

(** C10.  Let [open_images] return [images] for the batch.  If the number
    of elements of [images] is not a multiple of 256*256*3, the reshape
    raises and [process_batch] ends with that error having written nothing.
    If it is [n] times 256*256*3, the model is called on [n] images, and
    when it returns [m] score maps (an array of shape [m, ..., c] with
    [c > 0]; one per image, [m = n], for a Keras model) the predictions
    have [m] entries and the loop saves masks for the first [min m len]
    paths, in order, the path at position [j] receiving [preds[j]]: with
    [m < len(image_batch)] it stops with [IndexError] after exactly [m]
    masks; with [m >= len(image_batch)] it returns normally with one mask
    per path, and for [m > len(image_batch)] the predictions beyond the last
    path are never written. *)
Theorem C10_tile_count_precondition (ext : Externals) (model : Model ext)
    (image_batch : list string) (prediction_path : string) (w : world)
    (images : ndarray (pixel ext)) :
  open_images ext (fs w) image_batch = inr images ->
  let tile := IMAGE_SIZE * IMAGE_SIZE * 3 in
  let r := process_batch ext image_batch model prediction_path w in
  (Np.size images mod tile <> 0 ->
   r = (w, inl (ValueError "cannot reshape array"))) /\
  (forall n scores m inner c,
      Np.size images = n * tile ->
      model (NdArray [n; IMAGE_SIZE; IMAGE_SIZE; 3] (item images)) = inr scores ->
      shape scores = m :: inner ++ [c] -> 0 <= m -> 0 < c ->
      exists preds,
        infer ext model image_batch w
          = (World (fs w) (trace w ++ [EvInference image_batch]), inr preds) /\
        shape preds = m :: inner ++ [1] /\
        let saved := take (Z.to_nat m) image_batch in
        trace r.1 = trace w ++ EvInference image_batch
                    :: map (fun p => EvSaveMask (mask_filename prediction_path p))
                           saved /\
        fs r.1 = foldl (save_at prediction_path preds) (fs w)
                       (Py.enumerate saved) /\
        r.2 = (if Py.len image_batch <=? m then inr tt else inl IndexError) /\
        (m < Py.len image_batch ->
         length saved = Z.to_nat m /\ r.2 = inl IndexError) /\
        (Py.len image_batch <= m -> saved = image_batch /\ r.2 = inr tt) /\
        (NoDup (map (mask_filename prediction_path) saved) ->
         forall (j : nat) p, saved !! j = Some p ->
           exists mask,
             Np.getitem preds (Z.of_nat j) = inr mask /\
             fs r.1 !! mask_filename prediction_path p = Some (File (Mask mask)))).
Proof.
  intros Hopen tile r. split.
  - intros Hmod. unfold r. rewrite process_batch_run.
    unfold infer. run_M. rewrite Hopen.
    unfold Np.reshape_m1.
    change (Np.prod [IMAGE_SIZE; IMAGE_SIZE; 3]) with tile.
    destruct (Z.eqb_spec (Np.size images mod tile) 0) as [H0 | _]; [done |].
    by rewrite orb_true_r.
  - intros n scores m inner c Hsize Hmodel Hshape Hm Hc.
    assert (Hreshape : Np.reshape_m1 images [IMAGE_SIZE; IMAGE_SIZE; 3]
                       = inr (NdArray [n; IMAGE_SIZE; IMAGE_SIZE; 3] (item images))).
    { unfold Np.reshape_m1.
      change (Np.prod [IMAGE_SIZE; IMAGE_SIZE; 3]) with tile.
      rewrite Hsize, Z.mod_mul, Z.div_mul by done. done. }
    destruct (argmax_last_shape (score_leb ext) (score_isnan ext) scores
                (m :: inner) c Hshape Hc)
      as (classes & Hargmax & Hcs).
    set (preds := Np.where_gt_half (Np.expand_dims_last classes)).
    assert (Hinfer : infer ext model image_batch w
              = (World (fs w) (trace w ++ [EvInference image_batch]), inr preds)).
    { unfold infer. run_M. rewrite Hopen, Hreshape. cbn [fs trace].
      rewrite Hmodel, Hargmax. done. }
    assert (Hps : shape preds = m :: inner ++ [1]).
    { unfold preds. cbn. by rewrite Hcs. }
    exists preds. split; [done |]. split; [done |]. cbn zeta.
    destruct (saved_prefix_enumerate preds m (inner ++ [1]) 0

                image_batch Hps ltac:(lia)) as [Hpre Hout].
    rewrite Z.sub_0_r in Hpre, Hout.
    assert (Hr : r = (World (foldl (save_at prediction_path preds) (fs w)
                               (Py.enumerate (take (Z.to_nat m) image_batch)))
                        (trace w ++ EvInference image_batch
                           :: map (fun p => EvSaveMask (mask_filename prediction_path p))
                                  (take (Z.to_nat m) image_batch)),
                      if Py.len image_batch <=? m then inr tt else inl IndexError)).
    { unfold r. rewrite process_batch_run, Hinfer, save_loop_run.
      unfold Py.enumerate at 1 2 3. rewrite Hpre, Hout. cbn [fs trace].
      rewrite <- app_assoc. cbn [app].
      by rewrite (enumerate_from_map_snd
                    (fun p => EvSaveMask (mask_filename prediction_path p))). }
    rewrite Hr. cbn [fst snd fs trace]. split_and!; try done.
    + intros Hlt. unfold Py.len in *.
      split; [rewrite length_take; lia |].
      destruct (Z.leb_spec (Z.of_nat (length image_batch)) m); [lia | done].
    + intros Hle. unfold Py.len in *.
      split; [apply take_ge; lia |].
      destruct (Z.leb_spec (Z.of_nat (length image_batch)) m); [done | lia].
    + intros Hnd j p Hj.
      assert (Hjn : Z.of_nat j < m).
      { apply lookup_lt_Some in Hj. rewrite length_take in Hj. lia. }
      destruct (getitem_in_range preds m _ (Z.of_nat j) Hps ltac:(lia))
        as [Hok _].
      destruct (Hok Hjn) as [mask Hmask]. exists mask. split; [done |].
      apply (foldl_save_at_lookup prediction_path preds _ (fs w) (Z.of_nat j, p)).
      * unfold Py.enumerate.
        by rewrite (enumerate_from_map_snd (mask_filename prediction_path)).
      * apply list_elem_of_lookup. exists j. unfold Py.enumerate.
        rewrite enumerate_from_lookup, Hj. done.
      * done.
Qed.

(** ** One mask per input path (lines 34-38) *)

Lemma string_length_app (s t : string) :
  String.length (s +:+ t) = (String.length s + String.length t)%nat.
Proof. induction s as [| c s IH]; simpl; [done | by rewrite IH]. Qed.

Lemma string_app_inj_r (t s1 s2 : string) : s1 +:+ t = s2 +:+ t -> s1 = s2.
Proof.
  revert s2. induction s1 as [| c s1 IH]; intros [| c' s2]; simpl; intros H.
  - done.
  - apply (f_equal String.length) in H. simpl in H.
    rewrite !string_length_app in H. simpl in H. lia.
  - apply (f_equal String.length) in H. simpl in H.
    rewrite !string_length_app in H. simpl in H. lia.
  - injection H as -> H. f_equal. by apply IH.
Qed.

Lemma mask_filename_stem_inj (prediction_path p q : string) :
  mask_filename prediction_path p = mask_filename prediction_path q ->
  Py.stem p = Py.stem q.
Proof.
  unfold mask_filename. intros H.
  apply (inj (String.app prediction_path)) in H.
  change (String "/" (Py.stem p +:+ ".png") = String "/" (Py.stem q +:+ ".png"))
    in H.
  injection H as H. by apply string_app_inj_r in H.
Qed.

Lemma mask_filename_NoDup (prediction_path : string) (paths : list string) :
  NoDup (map Py.stem paths) -> NoDup (map (mask_filename prediction_path) paths).
Proof.
  induction paths as [| p paths IH]; cbn [map]; [constructor |].
  intros [Hfresh Hnd]%NoDup_cons. apply NoDup_cons. split; [| by apply IH].
  intros Hin. apply Hfresh.
  apply list_elem_of_fmap in Hin as (q & Hq & Hin).
  apply list_elem_of_fmap. exists q. split; [| done].
  by apply mask_filename_stem_inj in Hq.
Qed.

Lemma saved_files_app (evs evs' : list event) :
  saved_files (evs ++ evs') = saved_files evs ++ saved_files evs'.
Proof.
  induction evs as [| e evs IH]; [done |].
  destruct e; cbn; by rewrite ?IH.
Qed.

Lemma infer_on_fs (ext : Externals) (model : Model ext)
    (image_batch : list string) (w : world) :
  infer ext model image_batch w
  = (World (fs w)
       (trace w ++ trace (infer ext model image_batch (World (fs w) [])).1),
     (infer ext model image_batch (World (fs w) [])).2).
Proof.
  unfold infer. run_M. cbn [fs trace].
  destruct (open_images ext (fs w) image_batch) as [e | images];
    [by rewrite world_eta |].
  destruct (Np.reshape_m1 images _) as [e | reshaped];
    [by rewrite world_eta |].
  cbn [fs trace].
  destruct (model reshaped) as [e | scores]; [done |].
  by destruct (Np.argmax_last _ _ scores).
Qed.

(** ** Failures of a batch (lines 74-82) *)

Section Futures.

Context (ext : Externals) (model : Model ext) (prediction_path : string).
Context (batches : list (list string)) (fs0 : FS) (tr0 : list event).

Local Abbreviation reachable := (masks_apart prediction_path batches fs0).

Lemma on_course_step (image_batch : list string) (t t' : task) (w w' : world) :
  reachable (fs w) ->
  on_course ext model reachable image_batch t ->
  task_step ext model prediction_path t w = Some (t', w') ->
  on_course ext model reachable image_batch t'.
Proof.
  intros Hw.
  destruct t as [b | preds [| ip rest] | exc]; cbn [task_step on_course].
  - intros ->. rewrite (infer_on_fs ext model image_batch w).
    destruct ((infer ext model image_batch (World (fs w) [])).2)
      as [e | preds] eqn:Hi; intros [= <- <-]; cbn [on_course].
    + exists (fs w). split; [done |]. by rewrite Hi.
    + exists (fs w), []. by split_and!.
  - intros (fs1 & done & Hr & Hi & _ & Hout) [= <- <-].
    exists fs1. split; [done |]. by rewrite Hi, Hout.
  - intros (fs1 & done & Hr & Hi & Hdone & Hout). rewrite save_one_run.
    cbn [loop_outcome] in Hout.
    destruct (Np.getitem preds ip.1) as [e | mask]; intros [= <- <-];
      cbn [on_course].
    + exists fs1. split; [done |]. by rewrite Hi, Hout.
    + exists fs1, (done ++ [ip]). split_and!; try done.
      by rewrite Hdone, <- app_assoc.
  - done.
Qed.

Lemma task_step_masks_apart (image_batch : list string) (t t' : task)
    (w w' : world) :
  image_batch ∈ batches ->
  on_course ext model reachable image_batch t ->
  task_step ext model prediction_path t w = Some (t', w') ->
  reachable (fs w) -> reachable (fs w').
Proof.
  intros Hb.
  destruct t as [b | preds [| ip rest] | exc]; cbn [task_step on_course].
  - intros _. rewrite (infer_on_fs ext model b w).
    by destruct ((infer ext model b (World (fs w) [])).2); intros [= <- <-].
  - by intros _ [= <- <-].
  - intros (fs1 & done & _ & _ & Hdone & _). rewrite save_one_run.
    destruct (Np.getitem preds ip.1) as [e | mask]; intros [= <- <-];
      [done |].
    intros Hw k Hk. cbn [fs]. unfold save_mask.
    rewrite lookup_insert_ne; [by apply Hw |].
    intros <-. apply Hk. apply list_elem_of_fmap. exists ip.2.
    split; [done |]. apply list_elem_of_In, in_concat. exists image_batch.
    split; [by apply list_elem_of_In |]. apply list_elem_of_In.
    rewrite <- (enumerate_from_snd 0 image_batch).
    apply list_elem_of_fmap. exists ip. split; [done |].
    fold (Py.enumerate image_batch). rewrite Hdone.
    apply elem_of_app. right. by left.
  - done.
Qed.

Lemma futures_inv_step (st st' : world * list task) :
  futures_inv ext model prediction_path batches fs0 tr0 st ->
  pool_step ext model prediction_path st st' ->
  futures_inv ext model prediction_path batches fs0 tr0 st'.
Proof.
  intros (evs & Htr & Hfs & Hall & Hdone) Hstep'.
  inversion Hstep' as [k ? ? Hpick]; subst. clear Hstep'.
  apply pick_inv in Hpick as (t & t' & w' & Hk & Hstep & ->).
  destruct (task_step_events _ _ _ _ _ _ _ Hstep) as (evs1 & Htr1 & Hwork & _).
  destruct (Forall2_lookup_r _ _ _ _ _ Hall Hk) as (b & Hb & Hbt).
  assert (Hnf : forall exc, t <> Finished exc).
  { intros exc ->. done. }
  assert (Hnd : forall j exc, EvFutureDone j exc ∉ evs1).
  { intros j exc Hin. rewrite Forall_forall in Hwork.
    by specialize (Hwork _ Hin). }
  exists (evs ++ evs1 ++ match t' with
                         | Finished exc => [EvFutureDone k exc]
                         | _ => []
                         end).
  cbn [fst snd]. split_and!.
  - destruct t'; cbn [note_done trace];
      rewrite ?Htr1, ?Htr, <- ?app_assoc, ?app_nil_r; done.
  - assert (reachable (fs w')) as Hw'.
    { eapply task_step_masks_apart; [| done | done | done].
      by eapply list_elem_of_lookup_2. }
    by destruct t'.
  - pose proof (Forall2_insert _ batches st.2 b t' k Hall
                  (on_course_step b t t' st.1 w' Hfs Hbt Hstep)) as Hins.
    by rewrite (list_insert_id batches k b Hb) in Hins.
  - intros j exc. rewrite !elem_of_app.
    destruct (decide (j = k)) as [-> | Hne].
    + rewrite list_lookup_insert_eq by (by eapply lookup_lt_Some).
      split.
      * intros [Hin | [Hin | Hin]].
        -- apply Hdone in Hin. rewrite Hk in Hin. injection Hin as ->.
           by destruct (Hnf exc).
        -- by destruct (Hnd k exc).
        -- destruct t'; try by apply not_elem_of_nil in Hin.
           by apply list_elem_of_singleton in Hin as [= ->].
      * intros [= ->]. right. right. by apply list_elem_of_singleton.
    + rewrite list_lookup_insert_ne by done. rewrite <- Hdone.
      split; [| by left].
      intros [Hin | [Hin | Hin]]; [done | by destruct (Hnd j exc) |].
      destruct t'; try by apply not_elem_of_nil in Hin.
      by apply list_elem_of_singleton in Hin as [= -> _].
Qed.

Lemma futures_inv_rtc (st st' : world * list task) :
  futures_inv ext model prediction_path batches fs0 tr0 st ->
  rtc (pool_step ext model prediction_path) st st' ->
  futures_inv ext model prediction_path batches fs0 tr0 st'.
Proof.
  intros Hinv Hrtc. induction Hrtc as [| st st1 st2 Hs _ IH]; [done |].
  apply IH. by eapply futures_inv_step.
Qed.

Lemma futures_inv_start :
  futures_inv ext model prediction_path batches fs0 tr0
    (World fs0 tr0, map Queued batches).
Proof.
  exists []. cbn [fst snd trace fs]. split_and!.
  - by rewrite app_nil_r.
  - done.
  - apply Forall2_fmap_r, Forall_Forall2_diag, Forall_true. done.
  - intros k exc. split; [by intros ?%not_elem_of_nil |].
    rewrite list_lookup_fmap. by destruct (batches !! k).
Qed.

End Futures.

(** C5, as the code has it.  Once the model is loaded and the output
    directory is in place, under every scheduler the pool runs until every
    submitted batch's future is done.  The future of batch [k] then holds
    the outcome of [process_batch] on that batch -- the exception of its
    lines 26-32, or of the first [preds[idx]] that failed, or nothing -- in
    a file system that is the one the pool started in except for mask files
    of submitted paths, and is reported done with it, exactly once; a batch
    whose inference raises [e] in every such file system ends with [e] in
    its future.  Whatever
    the futures hold, [predict] then calls the georeferencer: its outcome
    is that of the georeferencing call alone, followed by the two removals
    when that call returns.  An exception raised inside a batch is never
    raised to the caller of [predict]; the masks the batches wrote are
    handed to the georeferencer. *)
Theorem C5_batch_failures_stay_in_futures (ext : Externals) (sched : list nat)
    (checkpoint_path input_path prediction_path : string) (w : world)
    (model : Model ext) (fs1 : FS) :
  load_model ext (fs w) checkpoint_path = inr model ->
  Os.makedirs_exist_ok prediction_path (fs w) = inr fs1 ->
  let w1 := World (fs w) (trace w ++ [EvLoadModel checkpoint_path]) in
  let batches := image_batches (glob ext fs1 (input_path +:+ "/*.png")) in
  let start := pool_start ext input_path w1 fs1 prediction_path in
  let st := drive ext model prediction_path sched start in
  let r := predict ext sched checkpoint_path input_path prediction_path w in
  let called := trace st.1 ++
        [EvWaitReturned; EvGeoreference prediction_path prediction_path true] in
  rtc (pool_step ext model prediction_path) start st /\
  length st.2 = length batches /\
  (exists pool,
      trace st.1 = trace start.1 ++ pool /\
      Forall (fun e => pool_event e = true) pool /\
      forall k image_batch,
        batches !! k = Some image_batch ->
        exists exception,
          st.2 !! k = Some (Finished exception) /\
          batch_outcome ext model (masks_apart prediction_path batches fs1)
            image_batch exception /\
          EvFutureDone k exception ∈ pool /\
          done_count k pool = 1%nat) /\
  (forall k image_batch e,
      batches !! k = Some image_batch ->
      (forall fs2,
          masks_apart prediction_path batches fs1 fs2 ->
          (infer ext model image_batch (World fs2 [])).2 = inl e) ->
      st.2 !! k = Some (Finished (Some e))) /\
  r = match georeference ext prediction_path prediction_path true (fs st.1) with
      | inl e => (World (fs st.1) called, inl e)
      | inr fs4 =>
          (World (remove_files (prediction_path +:+ "/*.png")
                    (remove_files (prediction_path +:+ "/*.xml") fs4))
                 (called ++ [EvRemoveFiles (prediction_path +:+ "/*.xml");
                             EvRemoveFiles (prediction_path +:+ "/*.png")]),
           inr tt)
      end.
Proof.
  intros Hload Hmk. cbn zeta.
  rewrite predict_run, Hload. cbn zeta.
  rewrite predict_loaded_run. cbn [fs trace]. rewrite Hmk. cbn zeta.
  set (w1 := World (fs w) (trace w ++ [EvLoadModel checkpoint_path])).
  set (start := pool_start ext input_path w1 fs1 prediction_path).
  destruct (drive_finished ext model prediction_path sched start)
    as (Hrtc & Hlen & Hfin).
  unfold start, pool_start in *. cbn [fst snd trace] in *.
  set (batches := image_batches (glob ext fs1 (input_path +:+ "/*.png"))) in *.
  set (tr0 := trace w1 ++ [EvMakedirs prediction_path;
                           EvGlob (input_path +:+ "/*.png")]
              ++ map EvSubmit batches) in *.
  destruct (drive_queued ext model prediction_path sched fs1 tr0 batches)
    as (pool & Htr & Hpool & _ & _ & Hcount).
  destruct (futures_inv_rtc ext model prediction_path batches fs1 tr0 _ _
              (futures_inv_start ext model prediction_path batches fs1 tr0)
              Hrtc)
    as (pool' & Htr' & _ & Hall & Hdone).
  set (st := drive ext model prediction_path sched _) in *.
  assert (pool' = pool) as ->.
  { rewrite Htr in Htr'. by apply app_inv_head in Htr'. }
  assert (Hholds : forall k image_batch,
            batches !! k = Some image_batch ->
            exists exception,
              st.2 !! k = Some (Finished exception) /\
              batch_outcome ext model (masks_apart prediction_path batches fs1)
                image_batch exception).
  { intros k b Hb.
    destruct (Forall2_lookup_l _ _ _ _ _ Hall Hb) as (t & Ht & Hbt).
    rewrite Forall_lookup in Hfin. specialize (Hfin k t Ht).
    destruct t as [| | exc]; try done. by exists exc. }
  split_and!.
  - done.
  - by rewrite Hlen, length_map.
  - exists pool. split_and!; try done.
    intros k b Hb. destruct (Hholds k b Hb) as (exc & Ht & Hout).
    exists exc. split_and!; try done.
    + by apply Hdone.
    + rewrite Hcount. rewrite decide_True; [done |]. by eapply lookup_lt_Some.
  - intros k b e Hb Hfail.
    destruct (Hholds k b Hb) as (exc & Ht & fs2 & Hfs2 & Hout).
    rewrite (Hfail fs2 Hfs2) in Hout. by subst exc.
  - done.
Qed.

Lemma todo_insert_perm (prediction_path : string) (pool : list task)
    (k : nat) (t t' : task) (extra : list string) :
  pool !! k = Some t ->
  todo prediction_path t ≡ₚ extra ++ todo prediction_path t' ->
  concat (map (todo prediction_path) pool)
  ≡ₚ extra ++ concat (map (todo prediction_path) (<[k := t']> pool)).
Proof.
  intros Hk Ht.
  rewrite insert_take_drop by (by eapply lookup_lt_Some).
  rewrite <- (take_drop_middle pool k t Hk) at 1.
  rewrite !map_app, !concat_app. cbn [map concat].
  rewrite Ht, <- !app_assoc.
  apply Permutation_app_swap_app.
Qed.

Lemma enumerate_from_range {A} (i : Z) (l : list A) (ip : Z * A) :
  ip ∈ Py.enumerate_from i l -> i <= ip.1 < i + Py.len l.
Proof.
  intros [j Hj]%list_elem_of_lookup. rewrite enumerate_from_lookup in Hj.
  destruct (l !! j) as [x |] eqn:Hx; [| done]. injection Hj as <-.
  apply lookup_lt_Some in Hx. unfold Py.len. cbn. lia.
Qed.

Lemma concat_todo_queued (prediction_path : string) (batches : list (list string)) :
  concat (map (todo prediction_path) (map Queued batches))
  = map (mask_filename prediction_path) (concat batches).
Proof.
  induction batches as [| b batches IH]; [done |].
  cbn [map concat todo]. by rewrite IH, map_app.
Qed.

Section Writes.

Context (ext : Externals) (model : Model ext) (prediction_path : string).
Context (fs0 : FS) (tr0 : list event).
Context (targets : list string) (batches : list (list string)).
Hypothesis batches_load :
  forall b fs1, b ∈ batches ->
    (forall k, k ∉ targets -> fs1 !! k = fs0 !! k) ->
    batch_loads ext model b fs1.

Lemma writes_inv_step (st st' : world * list task) :
  writes_inv prediction_path fs0 tr0 targets batches st ->
  pool_step ext model prediction_path st st' ->
  writes_inv prediction_path fs0 tr0 targets batches st'.
Proof.
  intros (evs & Htr & Hframe & Hperm & Hhealthy & Hmasks) Hstep.
  inversion Hstep as [k ? ? Hpick]; subst. clear Hstep.
  apply pick_inv in Hpick as (t & t' & w' & Hk & Hstep & ->).
  pose proof (Forall_lookup_1 _ _ _ _ Hhealthy Hk) as Ht.
  destruct t as [b | preds [| ip rest] | exc]; cbn [task_step] in Hstep.
  - (* lines 26-32 *)
    cbn [healthy] in Ht.
    destruct (batches_load b (fs st.1) Ht Hframe)
      as (preds & n & inner & Hpreds & Hshape & Hn).
    rewrite infer_on_fs, Hpreds in Hstep. injection Hstep as <- <-.
    destruct (infer_run ext model b (World (fs st.1) []))
      as (r & evs1 & Hrun & Hevs1).
    rewrite Hrun in Hpreds |- *. cbn [fst snd fs trace app note_done] in *.
    subst r.
    exists (evs ++ evs1). split_and!.
    + by rewrite Htr, <- app_assoc.
    + done.
    + rewrite saved_files_app.
      assert (saved_files evs1 = []) as -> by (by destruct Hevs1 as [-> | ->]).
      rewrite app_nil_r, <- Hperm. f_equiv.
      symmetry. apply (todo_insert_perm prediction_path st.2 k _ _ [] Hk).
      cbn [todo app]. unfold Py.enumerate.
      by rewrite (enumerate_from_map_snd (mask_filename prediction_path)).
    + apply Forall_insert; [done |]. cbn [healthy]. split.
      * apply infer_inv in Hrun as (? & ? & ? & ? & _ & _ & _ & _ & -> & _).
        apply where_gt_half_binary.
      * apply Forall_forall. intros ip Hip.
        apply enumerate_from_range in Hip.
        destruct (getitem_in_range preds n inner ip.1 Hshape ltac:(lia))
          as [Hok _]. apply Hok. lia.
    + intros f Hf. rewrite saved_files_app in Hf.
      assert (saved_files evs1 = []) as Hnil by (by destruct Hevs1 as [-> | ->]).
      rewrite Hnil, app_nil_r in Hf. by apply Hmasks.
  - (* the loop is over *)
    injection Hstep as <- <-. cbn [note_done fst snd fs trace].
    exists (evs ++ [EvFutureDone k None]). split_and!.
    + by rewrite Htr, <- app_assoc.
    + done.
    + rewrite saved_files_app. cbn [saved_files]. rewrite app_nil_r, <- Hperm.
      f_equiv. symmetry.
      by apply (todo_insert_perm prediction_path st.2 k _ _ [] Hk).
    + by apply Forall_insert.
    + intros f Hf. rewrite saved_files_app in Hf. cbn [saved_files] in Hf.
      rewrite app_nil_r in Hf. by apply Hmasks.
  - (* one turn of the loop *)
    cbn [healthy] in Ht. destruct Ht as [Hbin Hall].
    apply Forall_cons in Hall as [[mask Hmask] Hall].
    rewrite save_one_run, Hmask in Hstep. cbn zeta in Hstep.
    injection Hstep as <- <-. cbn [note_done fst snd fs trace].
    set (f := mask_filename prediction_path ip.2).
    assert (Htodo : concat (map (todo prediction_path) st.2)
                    ≡ₚ [f] ++ concat (map (todo prediction_path)
                                         (<[k := Saving preds rest]> st.2))).
    { by apply (todo_insert_perm prediction_path st.2 k _ _ [f] Hk). }
    assert (Hf : f ∈ targets).
    { rewrite <- Hperm, Htodo. apply elem_of_app. right. by left. }
    exists (evs ++ [EvSaveMask f]). split_and!.
    + by rewrite Htr, <- app_assoc.
    + intros k' Hk'. cbn [fst fs]. unfold save_mask.
      rewrite lookup_insert_ne by (intros ->; done). by apply Hframe.
    + rewrite saved_files_app. cbn [saved_files].
      rewrite <- Hperm, Htodo. by rewrite <- app_assoc.
    + apply Forall_insert; [done |]. by split.
    + intros f' Hf'. rewrite saved_files_app in Hf'. cbn [saved_files] in Hf'.
      cbn [fst fs]. unfold save_mask. destruct (decide (f' = f)) as [-> | Hne].
      * exists mask. rewrite lookup_insert_eq. split; [done |].
        by eapply getitem_binary.
      * rewrite lookup_insert_ne by done. apply Hmasks.
        apply elem_of_app in Hf' as [Hf' | Hf']; [done |].
        apply list_elem_of_singleton in Hf'. done.
  - done.
Qed.

Lemma writes_inv_rtc (st st' : world * list task) :
  writes_inv prediction_path fs0 tr0 targets batches st ->
  rtc (pool_step ext model prediction_path) st st' ->
  writes_inv prediction_path fs0 tr0 targets batches st'.
Proof.
  intros Hinv Hrtc. induction Hrtc as [| st st1 st2 Hs _ IH]; [done |].
  apply IH. by eapply writes_inv_step.
Qed.

End Writes.

(** C1, as the code has it.  Take input paths with pairwise distinct stems,
    cut into batches in any way, such that every batch loads and infers
    without error into at least one prediction per path, in any file system
    that differs from the initial one at mask files only.  Then under every
    scheduler each future ends without an exception; the files saved are,
    up to order, exactly the files [{prediction_path}/{stem}.png] of the
    input paths, which are pairwise distinct, so there is exactly one per
    input path; each holds a mask of zeros and ones; no other file is
    touched. *)
Theorem C1_one_mask_per_path (ext : Externals) (model : Model ext)
    (prediction_path : string) (paths : list string)
    (batches : list (list string)) (fs0 : FS) (tr0 : list event)
    (sched : list nat) :
  concat batches = paths ->
  NoDup (map Py.stem paths) ->
  (forall b fs1, b ∈ batches ->
     (forall k, k ∉ map (mask_filename prediction_path) paths ->
                fs1 !! k = fs0 !! k) ->
     batch_loads ext model b fs1) ->
  let targets := map (mask_filename prediction_path) paths in
  let st := drive ext model prediction_path sched
              (World fs0 tr0, map Queued batches) in
  NoDup targets /\
  length targets = length paths /\
  Forall (fun t => t = Finished None) st.2 /\
  (exists evs, trace st.1 = tr0 ++ evs /\ saved_files evs ≡ₚ targets) /\
  (forall p, p ∈ paths ->
     exists m, fs st.1 !! mask_filename prediction_path p = Some (File (Mask m))
               /\ binary_mask m) /\
  (forall k, k ∉ targets -> fs st.1 !! k = fs0 !! k) /\
  dom (fs st.1) = dom fs0 ∪ list_to_set targets.
Proof.
  intros Hcut Hstems Hload targets st.
  assert (Hstart : writes_inv prediction_path fs0 tr0 targets batches
                     (World fs0 tr0, map Queued batches)).
  { exists []. cbn [fst snd fs trace saved_files app]. split_and!.
    - by rewrite app_nil_r.
    - done.
    - by rewrite concat_todo_queued, Hcut.
    - apply Forall_fmap, Forall_forall. by intros b Hb.
    - intros f Hf. by apply elem_of_nil in Hf. }
  destruct (drive_finished ext model prediction_path sched
              (World fs0 tr0, map Queued batches)) as (Hrtc & _ & Hfin).
  fold st in Hrtc, Hfin.
  destruct (writes_inv_rtc ext model prediction_path fs0 tr0 targets batches
              Hload _ _ Hstart Hrtc)
    as (evs & Htr & Hframe & Hperm & Hhealthy & Hmasks).
  assert (Hdone : Forall (fun t => t = Finished None) st.2).
  { apply Forall_forall. intros t Ht.
    rewrite Forall_forall in Hfin, Hhealthy.
    specialize (Hfin t Ht). specialize (Hhealthy t Ht).
    destruct t; try done. cbn in Hhealthy. by subst. }
  assert (Hnotodo : concat (map (todo prediction_path) st.2) = []).
  { clear -Hdone. induction Hdone as [| t l -> _ IH]; [done |]. exact IH. }
  rewrite Hnotodo, app_nil_r in Hperm.
  assert (Hwritten : forall p, p ∈ paths ->
            exists m, fs st.1 !! mask_filename prediction_path p
                        = Some (File (Mask m)) /\ binary_mask m).
  { intros p Hp. apply Hmasks. rewrite Hperm.
    apply list_elem_of_fmap. by exists p. }
  split_and!.
  - by apply mask_filename_NoDup.
  - apply length_map.
  - done.
  - by exists evs.
  - done.
  - done.
  - apply set_eq. intros k. rewrite elem_of_union, !elem_of_dom, elem_of_list_to_set.
    destruct (decide (k ∈ targets)) as [Hin | Hout].
    + split; [by right |]. intros _.
      apply list_elem_of_fmap in Hin as (p & -> & Hp).
      destruct (Hwritten p Hp) as (m & -> & _). done.
    + rewrite (Hframe k Hout). split; [by left |]. by intros [? | ?].
Qed.

(** ** Paths, names and stems of listed tiles *)

Lemma rsplit_slash_app (d n : string) :
  Os.rsplit_slash n = None ->
  Os.rsplit_slash (d +:+ "/" +:+ n) = Some (d, n).
Proof.
  intros Hn. induction d as [| c d IH].
  - change ("" +:+ "/" +:+ n) with (String "/" n).
    cbn [Os.rsplit_slash]. by rewrite Hn.
  - change (String c d +:+ "/" +:+ n) with (String c (d +:+ "/" +:+ n)).
    cbn [Os.rsplit_slash]. by rewrite IH.
Qed.

Lemma rsplit_slash_Some (k d n : string) :
  Os.rsplit_slash k = Some (d, n) ->
  k = d +:+ "/" +:+ n /\ Os.rsplit_slash n = None.
Proof.
  revert d. induction k as [| c k IH]; intros d; cbn [Os.rsplit_slash]; [done |].
  destruct (Os.rsplit_slash k) as [[h t] |] eqn:Hk.
  - intros [= <- <-]. destruct (IH h eq_refl) as [-> Hn]. done.
  - destruct (Ascii.eqb_spec c "/") as [-> | _]; [| done].
    intros [= <- <-]. done.
Qed.

Lemma split_nonempty (sep : ascii) (s : string) : Py.split sep s <> [].
Proof.
  destruct s as [| c s]; cbn [Py.split]; [done |].
  destruct (Ascii.eqb c sep); [done |]. by destruct (Py.split sep s).
Qed.

Lemma split_app_slash (d n : string) :
  Os.rsplit_slash n = None ->
  Py.split "/" (d +:+ "/" +:+ n) = Py.split "/" d ++ [n].
Proof.
  intros Hn. induction d as [| c d IH].
  - change ("" +:+ "/" +:+ n) with (String "/" n).
    cbn [Py.split]. rewrite Ascii.eqb_refl. by rewrite split_no_slash.
  - change (String c d +:+ "/" +:+ n) with (String c (d +:+ "/" +:+ n)).
    cbn [Py.split]. rewrite IH.
    destruct (Ascii.eqb c "/"); [done |].
    pose proof (split_nonempty "/" d).
    by destruct (Py.split "/" d).
Qed.

Lemma path_name_entry (d n : string) :
  Os.rsplit_slash n = None -> n <> "" -> n <> "." ->
  Py.path_name (d +:+ "/" +:+ n) = n.
Proof.
  intros Hn He Hd. unfold Py.path_name.
  rewrite split_app_slash, List.filter_app by done. cbn [List.filter].
  destruct (String.eqb_spec n ""); [done |].
  destruct (String.eqb_spec n "."); [done |].
  cbn [negb andb]. apply last_last.
Qed.

Lemma rfind_app (c : ascii) (s t : string) :
  Py.rfind c (s +:+ t)
  = match Py.rfind c t with
    | Some i => Some (String.length s + i)%nat
    | None => Py.rfind c s
    end.
Proof.
  induction s as [| a s IH].
  - change ("" +:+ t) with t. by destruct (Py.rfind c t).
  - change (String a s +:+ t) with (String a (s +:+ t)).
    cbn [Py.rfind String.length]. rewrite IH.
    by destruct (Py.rfind c t).
Qed.

Lemma substring_prefix (s t : string) :
  substring 0 (String.length s) (s +:+ t) = s.
Proof.
  induction s as [| a s IH].
  - change ("" +:+ t) with t. by destruct t.
  - change (String a s +:+ t) with (String a (s +:+ t)).
    cbn [String.length substring]. by rewrite IH.
Qed.

Lemma stem_entry (d s : string) :
  Os.rsplit_slash s = None -> s <> "" ->
  Py.stem (d +:+ "/" +:+ s +:+ ".png") = s.
Proof.
  intros Hs He. unfold Py.stem.
  assert (Hn : Os.rsplit_slash (s +:+ ".png") = None).
  { clear He. induction s as [| a s IH]; [done |].
    change (String a s +:+ ".png") with (String a (s +:+ ".png")).
    cbn [Os.rsplit_slash] in *.
    destruct (Os.rsplit_slash s) as [[h t] |]; [done |].
    rewrite IH by done. by destruct (Ascii.eqb a "/"). }
  rewrite path_name_entry; [| done | by destruct s | ].
  - rewrite rfind_app. cbn [Py.rfind Ascii.eqb Bool.eqb andb].
    rewrite string_length_app. cbn [String.length].
    destruct s as [| a s]; [done |]. cbn [String.length].
    destruct (Nat.ltb_spec 0 (S (String.length s) + 0)); [| lia].
    destruct (Nat.ltb_spec (S (String.length s) + 0)
                (S (String.length s) + 4 - 1)); [| lia].
    cbn [andb]. rewrite Nat.add_0_r.
    apply (substring_prefix (String a s) ".png").
  - intros H. apply (f_equal String.length) in H.
    rewrite string_length_app in H. cbn in H. lia.
Qed.

Lemma fnmatch_dot_png (n : string) :
  Os.fnmatch ".png" n = String.eqb n ".png".
Proof.
  destruct n as [| a1 [| a2 [| a3 [| a4 [| a5 n]]]]]; cbn; try done;
    rewrite ?andb_false_r, ?andb_true_r; done.
Qed.

Lemma fnmatch_star_png (n : string) :
  Os.fnmatch "*.png" n = Py.endswith n ".png".
Proof.
  change (Os.fnmatch "*.png" n)
    with ((fix star (n : string) : bool :=
             Os.fnmatch ".png" n ||
             match n with
             | EmptyString => false
             | String _ n' => star n'
             end) n).
  induction n as [| a n IH].
  - done.
  - cbn [Py.endswith]. rewrite <- IH, <- fnmatch_dot_png. done.
Qed.

Lemma endswith_inv (n suffix : string) :
  Py.endswith n suffix = true <-> exists s, n = s +:+ suffix.
Proof.
  split.
  - induction n as [| a n IH]; cbn [Py.endswith].
    + rewrite orb_false_r. intros ->%String.eqb_eq. by exists "".
    + intros [->%String.eqb_eq | H]%orb_true_iff; [by exists "" |].
      destruct (IH H) as [s ->]. by exists (String a s).
  - intros [s ->]. induction s as [| a s IH].
    + change ("" +:+ suffix) with suffix.
      destruct suffix; cbn [Py.endswith]; by rewrite String.eqb_refl.
    + change (String a s +:+ suffix) with (String a (s +:+ suffix)).
      cbn [Py.endswith]. rewrite IH. apply orb_true_r.
Qed.

Lemma rsplit_slash_png (s : string) :
  Os.rsplit_slash (s +:+ ".png") = None <-> Os.rsplit_slash s = None.
Proof.
  induction s as [| a s IH]; [done |].
  change (String a s +:+ ".png") with (String a (s +:+ ".png")).
  cbn [Os.rsplit_slash].
  destruct (Os.rsplit_slash s) as [[h t] |] eqn:Hs.
  - destruct (Os.rsplit_slash (s +:+ ".png")) as [[h' t'] |]; [done |].
    destruct IH as [IH _]. discriminate (IH eq_refl).
  - destruct IH as [_ IH]. rewrite (IH eq_refl).
    by destruct (Ascii.eqb a "/").
Qed.

(** What the wildcard [{d}/*.png] names: the entries [{d}/{s}.png] whose
    [s] has no slash, is not empty and does not start with a dot. *)
Lemma glob_matches_png (d k : string) :
  Os.glob_matches (d +:+ "/*.png") k = true <->
  exists s, k = d +:+ "/" +:+ s +:+ ".png" /\
            Os.rsplit_slash s = None /\ s <> "" /\ Os.ishidden s = false.
Proof.
  unfold Os.glob_matches.
  change (d +:+ "/*.png") with (d +:+ "/" +:+ "*.png").
  rewrite (rsplit_slash_app d "*.png") by done.
  split.
  - destruct (Os.rsplit_slash k) as [[kdir name] |] eqn:Hk; [| done].
    apply rsplit_slash_Some in Hk as [-> Hname].
    rewrite fnmatch_star_png. cbn [Os.ishidden Ascii.eqb Bool.eqb orb].
    intros [[->%String.eqb_eq [s ->]%endswith_inv]%andb_true_iff
              Hvis%negb_true_iff]%andb_true_iff.
    exists s. split_and!; [done | by apply rsplit_slash_png | |].
    + by intros ->.
    + by destruct s.
  - intros (s & -> & Hs & He & Hvis).
    rewrite (rsplit_slash_app d (s +:+ ".png")) by (by apply rsplit_slash_png).
    rewrite String.eqb_refl, fnmatch_star_png.
    rewrite (proj2 (endswith_inv (s +:+ ".png") ".png")) by (by exists s).
    cbn [andb Os.ishidden Ascii.eqb Bool.eqb orb].
    destruct s as [| a s]; [done |]. cbn [Os.ishidden] in Hvis |- *.
    change (String a s +:+ ".png") with (String a (s +:+ ".png")).
    cbn [Os.ishidden]. by rewrite Hvis.
Qed.

Lemma rsplit_slash_cons_None (c : ascii) (s : string) :
  Os.rsplit_slash (String c s) = None <->
  Os.rsplit_slash s = None /\ Ascii.eqb c "/" = false.
Proof.
  cbn [Os.rsplit_slash].
  destruct (Os.rsplit_slash s) as [[h t] |]; [by split; [| intros []] |].
  destruct (Ascii.eqb c "/"); by split; [| intros []].
Qed.

Lemma split_components_no_slash (s : string) :
  Forall (fun x => Os.rsplit_slash x = None) (Py.split "/" s).
Proof.
  induction s as [| c s IH]; cbn [Py.split]; [by repeat constructor |].
  destruct (Ascii.eqb c "/") eqn:Hc; [by constructor |].
  destruct (Py.split "/" s) as [| h t].
  - constructor; [by apply rsplit_slash_cons_None | constructor].
  - apply Forall_cons in IH as [Hh Ht]. constructor; [| done].
    by apply rsplit_slash_cons_None.
Qed.

Lemma last_Forall {A} (P : A -> Prop) (l : list A) (d : A) :
  Forall P l -> P d -> P (List.last l d).
Proof.
  intros Hl Hd. induction Hl as [| x l Hx Hl IH]; [done |].
  cbn [List.last]. by destruct l.
Qed.

Lemma path_name_no_slash (path : string) :
  Os.rsplit_slash (Py.path_name path) = None.
Proof.
  unfold Py.path_name. apply last_Forall; [| done].
  apply Forall_forall. intros x Hx%list_elem_of_In.
  apply filter_In in Hx as [Hx%list_elem_of_In _].
  pose proof (split_components_no_slash path) as H.
  rewrite Forall_forall in H. by apply H.
Qed.

Lemma substring_no_slash (n : nat) (s : string) :
  Os.rsplit_slash s = None -> Os.rsplit_slash (substring 0 n s) = None.
Proof.
  revert n. induction s as [| c s IH]; intros [| n] Hs; try done.
  cbn [substring]. apply rsplit_slash_cons_None in Hs as [Hs Hc].
  apply rsplit_slash_cons_None. split; [by apply IH | done].
Qed.

Lemma stem_no_slash (path : string) : Os.rsplit_slash (Py.stem path) = None.
Proof.
  unfold Py.stem. pose proof (path_name_no_slash path) as Hn.
  destruct (Py.rfind "." (Py.path_name path)) as [i |]; [| done].
  destruct (_ && _); [by apply substring_no_slash | done].
Qed.

(** The mask of a tile named by [{input_path}/*.png]: the path is
    [{input_path}/{s}.png], its stem is [s], its mask goes to
    [{prediction_path}/{s}.png], and the wildcard [{prediction_path}/*.png]
    names that file. *)
Lemma listed_tile_mask (input_path prediction_path : string) (fs1 : FS)
    (p : string) :
  p ∈ Os.glob (input_path +:+ "/*.png") fs1 ->
  exists s,
    p = input_path +:+ "/" +:+ s +:+ ".png" /\
    Py.stem p = s /\
    mask_filename prediction_path p = prediction_path +:+ "/" +:+ s +:+ ".png" /\
    Os.glob_matches (prediction_path +:+ "/*.png")
      (mask_filename prediction_path p) = true.
Proof.
  intros [Hm _]%elem_of_glob.
  apply glob_matches_png in Hm as (s & -> & Hs & He & Hvis).
  assert (Hstem : Py.stem (input_path +:+ "/" +:+ s +:+ ".png") = s)
    by (by apply stem_entry).
  exists s. unfold mask_filename. rewrite Hstem. split_and!; try done.
  apply glob_matches_png. by exists s.
Qed.

Lemma listed_tiles_stems_NoDup (input_path : string) (fs1 : FS) :
  NoDup (map Py.stem (Os.glob (input_path +:+ "/*.png") fs1)).
Proof.
  apply NoDup_fmap_2_strong; [| apply glob_NoDup].
  intros p q Hp Hq Hpq.
  destruct (listed_tile_mask input_path "" fs1 p Hp) as (s & -> & Hs & _).
  destruct (listed_tile_mask input_path "" fs1 q Hq) as (t & -> & Ht & _).
  congruence.
Qed.

(** ** What is left in the output directory (lines 86-91) *)


(** * Concrete runs *)

(** C1 fails as stated: two distinct input paths with the same stem, in one
    batch that loads and infers without error, end in a single mask file --
    the second save overwrites the first. *)
Lemma C1_counterexample_same_stem :
  let image_batch := ["north/x.png"; "south/x.png"] in
  let r := process_batch Sample.ext_ok image_batch Sample.two_class_model "out"
             (Sample.world_of ∅) in
  NoDup image_batch /\
  r.2 = inr tt /\
  saved_files (trace r.1) = ["out/x.png"; "out/x.png"] /\
  map fst (map_to_list (fs r.1)) = ["out/x.png"] /\
  length (map_to_list (fs r.1)) <> length image_batch.
Proof.
  cbn zeta. split_and!.
  - apply NoDup_cons. split; [| apply NoDup_singleton].
    intros H%list_elem_of_singleton. discriminate H.
  - vm_compute. reflexivity.
  - vm_compute. reflexivity.
  - vm_compute. reflexivity.
  - vm_compute. discriminate.
Qed.


(** C5 fails as stated: the model raises inside the only batch, the
    exception ends in the batch's future, and [predict] goes on to
    georeference and clean up and returns normally. *)
Lemma C5_counterexample_failure_swallowed :
  let r := predict Sample.ext_failing_model [] "ckpt" "tiles" "out"
             (Sample.world_of Sample.fs_two_tiles) in
  r.2 = inr tt /\
  trace r.1
  = [EvLoadModel "ckpt"; EvMakedirs "out"; EvGlob "tiles/*.png";
     EvSubmit ["tiles/a.png"; "tiles/b.png"];
     EvInference ["tiles/a.png"; "tiles/b.png"];
     EvFutureDone 0 (Some (ExternalError "inference failed"));
     EvWaitReturned; EvGeoreference "out" "out" true;
     EvRemoveFiles "out/*.xml"; EvRemoveFiles "out/*.png"].
Proof. cbn zeta. split; vm_compute; reflexivity. Qed.

Lemma Z_score_order : score_order Z.leb (fun _ => false).
Proof.
  split.
  - intros x y _ _. destruct (Z.leb_spec x y), (Z.leb_spec y x); auto. lia.
  - intros x y z Hxy%Z.leb_le Hyz%Z.leb_le. apply Z.leb_le. lia.
  - done.
Qed.

Lemma nan_score_order : score_order Sample.nan_leb Sample.nan_isnan.
Proof.
  split.
  - intros [x |] [y |]; try done. intros _ _. cbn.
    destruct (Z.leb_spec x y), (Z.leb_spec y x); auto. lia.
  - intros [x |] [y |] [z |]; try done. cbn.
    intros Hxy%Z.leb_le Hyz%Z.leb_le. apply Z.leb_le. lia.
  - by intros [x |] [y |].
Qed.

(** C3 on one sample tile.  The two-class model scores pixel 0 with
    [(1, 0)] and pixel 1 with [(0, 1)]: the first gets 0, the second 1, and
    at pixel 1 the class taken is an arg-max of its row of scores.  The
    model that scores every pixel with [(0, NaN)] gets 1 at pixel 0: the
    class taken is that of the NaN. *)
Lemma C3_binarization_witness :
  score_order (score_leb Sample.ext_ok) (score_isnan Sample.ext_ok) /\
  score_order (score_leb Sample.ext_nan) (score_isnan Sample.ext_nan) /\
  (exists w' preds,
      infer Sample.ext_ok Sample.two_class_model ["tiles/a.png"]
        (Sample.world_of Sample.fs_two_tiles) = (w', inr preds) /\
      item preds 0 = 0 /\
      item preds 1 = 1 /\
      binary_mask preds /\
      exists (scores : ndarray Z) (classes : ndarray Z) (c : Z),
        last (shape scores) = Some c /\
        first_max Z.leb (fun _ => false)
          (map (fun k => item scores (1 * c + k)) (Py.range c))
          (Z.to_nat (item classes 1)) /\
        (item preds 1 = 1 <-> 1 <= item classes 1)) /\
  (exists w' preds,
      infer Sample.ext_nan Sample.nan_model ["tiles/a.png"]
        (Sample.world_of Sample.fs_two_tiles) = (w', inr preds) /\
      item preds 0 = 1 /\
      exists (scores : ndarray (option Z)) (classes : ndarray Z) (c : Z),
        last (shape scores) = Some c /\
        first_max Sample.nan_leb Sample.nan_isnan
          (map (fun k => item scores (0 * c + k)) (Py.range c))
          (Z.to_nat (item classes 0)) /\
        (item preds 0 = 1 <-> 1 <= item classes 0)).
Proof.
  split; [exact Z_score_order |].
  split; [exact nan_score_order |].
  split.
  - set (r := infer Sample.ext_ok Sample.two_class_model ["tiles/a.png"]
                (Sample.world_of Sample.fs_two_tiles)).
    exists r.1, (match r.2 with
                 | inr preds => preds
                 | inl _ => NdArray [] (fun _ => 0)
                 end).
    assert (H : r = (r.1, inr (match r.2 with
                               | inr preds => preds
                               | inl _ => NdArray [] (fun _ => 0)
                               end)))
      by (vm_compute; reflexivity).
    split; [exact H |].
    split; [vm_compute; reflexivity |].
    split; [vm_compute; reflexivity |].
    destruct (C3_binarization Sample.ext_ok Sample.two_class_model
                ["tiles/a.png"] (Sample.world_of Sample.fs_two_tiles) _ _ H)
      as (images & scores & classes & c & _ & _ & Hc & _ & Hpix & Hbin & _).
    split; [exact Hbin |].
    exists scores, classes, c.
    destruct (Hpix 1) as (_ & _ & Hmax & _ & Hone & _).
    split; [exact Hc |]. split; [exact (Hmax Z_score_order) | exact Hone].
  - set (r := infer Sample.ext_nan Sample.nan_model ["tiles/a.png"]
                (Sample.world_of Sample.fs_two_tiles)).
    exists r.1, (match r.2 with
                 | inr preds => preds
                 | inl _ => NdArray [] (fun _ => 0)
                 end).
    assert (H : r = (r.1, inr (match r.2 with
                               | inr preds => preds
                               | inl _ => NdArray [] (fun _ => 0)
                               end)))
      by (vm_compute; reflexivity).
    split; [exact H |].
    split; [vm_compute; reflexivity |].
    destruct (C3_binarization Sample.ext_nan Sample.nan_model
                ["tiles/a.png"] (Sample.world_of Sample.fs_two_tiles) _ _ H)
      as (images & scores & classes & c & _ & _ & Hc & _ & Hpix & _).
    exists scores, classes, c.
    destruct (Hpix 0) as (_ & _ & Hmax & _ & Hone & _).
    split; [exact Hc |]. split; [exact (Hmax nan_score_order) | exact Hone].
Defined.



(** C9 on the sample world without tiles. *)
Lemma C9_no_tiles_witness :
  glob Sample.ext_ok (<["out" := Dir]> Sample.fs_no_tiles) "tiles/*.png" = [] /\
  image_batches
    (glob Sample.ext_ok (<["out" := Dir]> Sample.fs_no_tiles) "tiles/*.png")
  = [].
Proof.
  assert (Hmk : Os.makedirs_exist_ok "out" Sample.fs_no_tiles
                = inr (<["out" := Dir]> Sample.fs_no_tiles))
    by (vm_compute; reflexivity).
  assert (Hglob : glob Sample.ext_ok (<["out" := Dir]> Sample.fs_no_tiles)
                    "tiles/*.png" = [])
    by (vm_compute; reflexivity).
  split; [exact Hglob |].
  exact (proj1 (proj2 (C9_no_tiles Sample.ext_ok [] "ckpt" "tiles" "out"
                         (Sample.world_of Sample.fs_no_tiles)
                         Sample.two_class_model
                         (<["out" := Dir]> Sample.fs_no_tiles)
                         eq_refl Hmk Hglob))).
Defined.

(** C5 on the sample world with the failing model: the future of the only
    batch holds the model's exception, and the outcome is the
    georeferencer's. *)
Lemma C5_batch_failures_witness :
  let st := drive Sample.ext_failing_model Sample.failing_model "out" []
              (pool_start Sample.ext_failing_model "tiles"
                 (World Sample.fs_two_tiles [EvLoadModel "ckpt"])
                 Sample.fs_two_tiles "out") in
  st.2 !! 0%nat = Some (Finished (Some (ExternalError "inference failed"))) /\
  (predict Sample.ext_failing_model [] "ckpt" "tiles" "out"
     (Sample.world_of Sample.fs_two_tiles)).2 = inr tt.
Proof.
  cbn zeta.
  assert (Hmk : Os.makedirs_exist_ok "out" Sample.fs_two_tiles
                = inr Sample.fs_two_tiles)
    by (vm_compute; reflexivity).
  destruct (C5_batch_failures_stay_in_futures Sample.ext_failing_model []
              "ckpt" "tiles" "out" (Sample.world_of Sample.fs_two_tiles)
              Sample.failing_model Sample.fs_two_tiles eq_refl Hmk)
    as (_ & _ & _ & Hfail & Hout).
  split.
  - apply (Hfail 0%nat ("tiles/a.png" :: "tiles/b.png" :: nil)
             (ExternalError "inference failed")).
    + vm_compute. reflexivity.
    + intros fs2 _. vm_compute. reflexivity.
  - rewrite Hout. reflexivity.
Defined.

(** C10 fails as stated: the loader returns two tiles for a batch of one
    path, so the array does not hold [len(image_batch) * 256 * 256 * 3]
    elements; yet [process_batch] neither fails nor pairs a mask with a
    wrong path: it returns normally, having written for the one path the
    very mask it writes when the loader returns exactly one tile. *)
Lemma C10_counterexample_more_tiles :
  let image_batch := ["tiles/a.png"] in
  let w := Sample.world_of Sample.fs_two_tiles in
  let r := process_batch Sample.ext_padded image_batch Sample.two_class_model
             "out" w in
  let one_tile := process_batch Sample.ext_ok image_batch
                    Sample.two_class_model "out" w in
  (exists images,
      open_images Sample.ext_padded (fs w) image_batch = inr images /\
      Np.size images = 2 * (256 * 256 * 3) /\
      Np.size images <> Py.len image_batch * (256 * 256 * 3)) /\
  r.2 = inr tt /\
  trace r.1 = [EvInference image_batch; EvSaveMask "out/a.png"] /\
  one_tile.2 = inr tt /\
  (forall i,
      match fs r.1 !! "out/a.png", fs one_tile.1 !! "out/a.png" with
      | Some (File (Mask m)), Some (File (Mask m')) =>
          shape m = shape m' /\ item m i = item m' i
      | _, _ => False
      end).
Proof.
  cbn zeta. split_and!.
  - eexists. split; [reflexivity |]. split; vm_compute; [reflexivity | discriminate].
  - vm_compute. reflexivity.
  - vm_compute. reflexivity.
  - vm_compute. reflexivity.
  - intros i. vm_compute. split; reflexivity.
Qed.

(** C10 on a batch of two paths for which the loader returns one tile: the
    loop saves one mask and raises [IndexError]. *)
Lemma C10_tile_count_witness :
  let image_batch := ["tiles/a.png"; "tiles/b.png"] in
  let r := process_batch Sample.ext_one_tile image_batch Sample.two_class_model
             "out" (Sample.world_of Sample.fs_two_tiles) in
  r.2 = inl IndexError /\
  trace r.1 = [EvInference image_batch; EvSaveMask "out/a.png"].
Proof.
  cbn zeta.
  destruct (C10_tile_count_precondition Sample.ext_one_tile
              Sample.two_class_model ["tiles/a.png"; "tiles/b.png"] "out"
              (Sample.world_of Sample.fs_two_tiles)
              (NdArray [1; 256; 256; 3] (fun i => i mod 251)) eq_refl)
    as [_ Hmultiple].
  destruct (Hmultiple 1
              (NdArray [1; 256; 256; 2]
                 (fun i => if (i mod 2 =? (i / 2) mod 2) then 1 else 0))
              1 (256 :: 256 :: nil) 2
              eq_refl eq_refl eq_refl ltac:(lia) ltac:(lia))
    as (preds & _ & _ & Htrace & _ & _ & Hshort & _).
  split.
  - apply Hshort. vm_compute. reflexivity.
  - exact Htrace.
Defined.

(** C1 on two sample tiles cut into two batches of one, under a scheduler
    that starts with the second batch. *)
Lemma C1_one_mask_per_path_witness :
  let paths := ["tiles/a.png"; "tiles/b.png"] in
  let st := drive Sample.ext_ok Sample.two_class_model "out" [1; 0; 1]%nat
              (Sample.world_of Sample.fs_two_tiles,
               map Queued [["tiles/a.png"]; ["tiles/b.png"]]) in
  NoDup (map Py.stem paths) /\
  dom (fs st.1) = dom Sample.fs_two_tiles ∪ list_to_set ["out/a.png"; "out/b.png"].
Proof.
  cbn zeta.
  assert (Hstems : NoDup (map Py.stem ["tiles/a.png"; "tiles/b.png"])).
  { change (NoDup ["a"; "b"]). apply NoDup_cons.
    split; [| apply NoDup_singleton].
    intros H%list_elem_of_singleton. discriminate H. }
  split; [exact Hstems |].
  assert (Hload : forall b fs1,
            b ∈ [["tiles/a.png"]; ["tiles/b.png"]] ->
            (forall k,
                k ∉ map (mask_filename "out") ["tiles/a.png"; "tiles/b.png"] ->
                fs1 !! k = Sample.fs_two_tiles !! k) ->
            batch_loads Sample.ext_ok Sample.two_class_model b fs1);
    [| destruct (C1_one_mask_per_path Sample.ext_ok Sample.two_class_model "out"
                  ["tiles/a.png"; "tiles/b.png"]
                  [["tiles/a.png"]; ["tiles/b.png"]]
                  Sample.fs_two_tiles [] [1; 0; 1]%nat eq_refl Hstems Hload)
         as (_ & _ & _ & _ & _ & _ & Hdom); exact Hdom].
  intros b fs1 Hb _.
  assert (Hone : forall p : string,
            batch_loads Sample.ext_ok Sample.two_class_model [p] fs1).
  { intros p.
    exists (Np.where_gt_half (Np.expand_dims_last
              (NdArray (1 :: 256 :: 256 :: nil)
                 (fun i => match Np.argmax_row Z.leb (fun _ => false)
                                   (Np.row (NdArray (1 :: 256 :: 256 :: 2 :: nil)
                                      (fun i => if (i mod 2 =? (i / 2) mod 2)
                                                then 1 else 0)) 2 i) with
                           | Some k => k
                           | None => 0
                           end)))),
           1, (256 :: 256 :: 1 :: nil).
    split_and!; [reflexivity | reflexivity | vm_compute; discriminate]. }
  apply elem_of_cons in Hb as [-> | Hb];
    [| apply list_elem_of_singleton in Hb as ->]; apply Hone.
Defined.


(** * Further properties of [process_batch] and [predict] *)

(** ** Ties and the background class (lines 30-32) *)

Lemma argmax_from_kept {A} (leb : A -> A -> bool) (isnan : A -> bool)
    (xs : list A) (best : A) (besti i : Z) :
  0 <= besti < i ->
  Np.argmax_from leb isnan best besti i xs = besti <->
  isnan best = true \/ Forall (fun x => leb x best = true) xs.
Proof.
  revert best besti i. induction xs as [| x xs IH]; intros best besti i Hb.
  - cbn. split; [by right | done].
  - cbn [Np.argmax_from]. destruct (isnan best) eqn:Hnan.
    { split; [by left | done]. }
    destruct (leb x best) eqn:Hx.
    + rewrite (IH best besti (i + 1)) by lia. rewrite Hnan.
      split; (intros [? | H]; [done | right]).
      * by constructor.
      * by apply Forall_cons in H as [_ ?].
    + pose proof (argmax_from_bounds leb isnan xs x i (i + 1) ltac:(lia)).
      split; [lia |]. intros [? | [Hx' _]%Forall_cons]; congruence.
Qed.

Lemma row_unfold {A} (a : ndarray A) (c i : Z) :
  0 < c ->
  Np.row a c i
  = item a (i * c + 0)
    :: map (fun k : nat => item a (i * c + Z.of_nat k))
           (seq 1 (Z.to_nat c - 1)).
Proof.
  intros Hc. unfold Np.row, Py.range.
  replace (Z.to_nat c) with (S (Z.to_nat c - 1)) at 1 by lia.
  cbn [seq map]. f_equal. by rewrite map_map.
Qed.

Lemma argmax_row_zero {A} (leb : A -> A -> bool) (isnan : A -> bool)
    (a : ndarray A) (c i : Z) :
  0 < c ->
  Np.argmax_row leb isnan (Np.row a c i) = Some 0 <->
  isnan (item a (i * c)) = true \/
  forall k, 1 <= k < c -> leb (item a (i * c + k)) (item a (i * c)) = true.
Proof.
  intros Hc. rewrite row_unfold by done. cbn [Np.argmax_row].
  rewrite Z.add_0_r.
  split.
  - intros [= H]. apply argmax_from_kept in H as [H | H]; [by left | | lia].
    right. intros k Hk. rewrite Forall_forall in H. apply H.
    apply list_elem_of_fmap. exists (Z.to_nat k). split; [f_equal; lia |].
    apply elem_of_seq. lia.
  - intros H. f_equal. apply argmax_from_kept; [lia |].
    destruct H as [H | H]; [by left | right].
    apply Forall_forall. intros x (k & -> & Hk%elem_of_seq)%list_elem_of_fmap.
    apply H. lia.
Qed.

(** X1.  In the predictions of lines 26-32 a pixel is 0 exactly when, at
    that position, the score of class 0 is NaN or the score of every other
    class is [<=] it: a tie with class 0 gives background, and a NaN in
    another class gives 1, since numpy's arg-max takes the first NaN for
    the maximum.  With two classes the pixel is 1 exactly when the score of
    class 0 is not NaN and the score of class 1 is not [<=] it. *)
Theorem X1_background_unless_class0_beaten (ext : Externals) (model : Model ext)
    (image_batch : list string) (w w' : world) (preds : ndarray Z) :
  infer ext model image_batch w = (w', inr preds) ->
  exists (loaded images : ndarray (pixel ext)) (scores : ndarray (score ext))
         (c : Z),
    open_images ext (fs w) image_batch = inr loaded /\
    Np.reshape_m1 loaded [IMAGE_SIZE; IMAGE_SIZE; 3] = inr images /\
    model images = inr scores /\
    last (shape scores) = Some c /\ 0 < c /\
    forall i,
      (item preds i = 0 <->
       score_isnan ext (item scores (i * c)) = true \/
       forall k, 1 <= k < c ->
         score_leb ext (item scores (i * c + k)) (item scores (i * c)) = true) /\
      (c = 2 ->
       (item preds i = 1 <->
        score_isnan ext (item scores (i * 2)) = false /\
        score_leb ext (item scores (i * 2 + 1)) (item scores (i * 2)) = false)).
Proof.
  intros H.
  apply infer_inv in H
    as (loaded & reshaped & scores & classes & Ho & Hr & Hm & Ha & -> & _).
  destruct (argmax_last_inv _ _ _ _ Ha) as (c & Hc & Hpos & Hrow).
  exists loaded, reshaped, scores, c. split_and!; try done.
  intros i. destruct (Hrow i) as [Hk Hb].
  cbn [Np.where_gt_half Np.expand_dims_last item].
  assert (Hzero : (if Np.gt_half (item classes i) then 1 else 0) = 0
                  <-> item classes i = 0).
  { destruct (Np.gt_half (item classes i)) eqn:Hg.
    - apply gt_half_ge_1 in Hg. lia.
    - assert (~ 1 <= item classes i) by (rewrite <- gt_half_ge_1; congruence).
      lia. }
  assert (Hbg : item classes i = 0 <->
                score_isnan ext (item scores (i * c)) = true \/
                forall k, 1 <= k < c ->
                  score_leb ext (item scores (i * c + k)) (item scores (i * c))
                  = true).
  { rewrite <- (argmax_row_zero (score_leb ext) (score_isnan ext) scores c i
                  Hpos), Hk.
    split; [by intros -> | by intros [= ->]]. }
  split; [by rewrite Hzero |].
  intros ->.
  assert (Hone : (if Np.gt_half (item classes i) then 1 else 0) = 1
                 <-> item classes i <> 0).
  { destruct (Np.gt_half (item classes i)) eqn:Hg.
    - apply gt_half_ge_1 in Hg. lia.
    - assert (~ 1 <= item classes i) by (rewrite <- gt_half_ge_1; congruence).
      lia. }
  rewrite Hone, Hbg. split.
  - intros Hn.
    destruct (score_isnan ext (item scores (i * 2))) eqn:Hnan;
      [by destruct Hn; left |].
    split; [done |].
    destruct (score_leb ext _ _) eqn:Hs; [| done].
    exfalso. apply Hn. right. intros k Hk'. by replace k with 1 by lia.
  - intros [Hnan Hs] [Hn | Hall]; [congruence |].
    rewrite (Hall 1) in Hs by lia. done.
Qed.

(** ** Where a mask goes, whatever the input path (line 37) *)

(** X2.  Whatever the input path looks like, its mask is an entry of the
    directory [prediction_path] itself, named [{stem}.png]: the stem never
    contains a slash.  The cleanup pattern [{prediction_path}/*.png] lists
    that file exactly when the stem is not empty and does not start with a
    dot. *)
Theorem X2_mask_is_entry_of_prediction_path (prediction_path path : string) :
  Os.rsplit_slash (mask_filename prediction_path path)
    = Some (prediction_path, Py.stem path +:+ ".png") /\
  (Os.glob_matches (prediction_path +:+ "/*.png")
     (mask_filename prediction_path path) = true
   <-> Py.stem path <> "" /\ Os.ishidden (Py.stem path) = false).
Proof.
  pose proof (stem_no_slash path) as Hs.
  split.
  - unfold mask_filename. apply rsplit_slash_app. by apply rsplit_slash_png.
  - rewrite glob_matches_png. unfold mask_filename. split.
    + intros (s & Heq & _ & Hne & Hvis).
      apply (inj (String.app prediction_path)) in Heq.
      change (String "/" (Py.stem path +:+ ".png") = String "/" (s +:+ ".png"))
        in Heq.
      injection Heq as Heq. apply string_app_inj_r in Heq as ->. done.
    + intros [Hne Hvis]. by exists (Py.stem path).
Qed.

(** ** What the pool can touch, even when batches fail *)

Lemma todo_insert_sub (prediction_path : string) (pool : list task)
    (k : nat) (t t' : task) (extra : list string) :
  pool !! k = Some t ->
  extra ++ todo prediction_path t' ⊆+ todo prediction_path t ->
  extra ++ concat (map (todo prediction_path) (<[k := t']> pool))
  ⊆+ concat (map (todo prediction_path) pool).
Proof.
  intros Hk Ht.
  rewrite insert_take_drop by (by eapply lookup_lt_Some).
  rewrite <- (take_drop_middle pool k t Hk) at 3.
  rewrite !map_app, !concat_app. cbn [map concat].
  rewrite (Permutation_app_swap_app extra).
  apply submseteq_skips_l. rewrite app_assoc.
  by apply submseteq_app.
Qed.

Lemma todo_elem_of_pool (prediction_path : string) (pool : list task)
    (k : nat) (t : task) (f : string) :
  pool !! k = Some t -> f ∈ todo prediction_path t ->
  f ∈ concat (map (todo prediction_path) pool).
Proof.
  intros Hk Hf. rewrite <- (take_drop_middle pool k t Hk).
  rewrite map_app, concat_app. cbn [map concat].
  apply elem_of_app. right. apply elem_of_app. by left.
Qed.

Section Safe.

Context (ext : Externals) (model : Model ext) (prediction_path : string).
Context (fs0 : FS) (tr0 : list event) (targets : list string).

Lemma safe_inv_step (st st' : world * list task) :
  safe_inv prediction_path fs0 tr0 targets st ->
  pool_step ext model prediction_path st st' ->
  safe_inv prediction_path fs0 tr0 targets st'.
Proof.
  intros (evs & Htr & Hframe & Hsub & Hsound & Hmasks) Hstep.
  inversion Hstep as [k ? ? Hpick]; subst. clear Hstep.
  apply pick_inv in Hpick as (t & t' & w' & Hk & Hstep & ->).
  pose proof (Forall_lookup_1 _ _ _ _ Hsound Hk) as Ht.
  destruct t as [b | preds [| ip rest] | exc]; cbn [task_step] in Hstep.
  - (* lines 26-32 *)
    destruct (infer_run ext model b st.1)
      as (r & evs1 & Hrun & Hevs1).
    assert (Hnil : saved_files evs1 = []) by (by destruct Hevs1 as [-> | ->]).
    rewrite Hrun in Hstep. destruct r as [e | preds]; injection Hstep as <- <-.
    + cbn [note_done fst snd fs trace].
      exists (evs ++ evs1 ++ [EvFutureDone k (Some e)]). split_and!.
      * by rewrite Htr, <- !app_assoc.
      * rewrite !saved_files_app, Hnil. cbn [saved_files].
        by rewrite !app_nil_r.
      * rewrite !saved_files_app, Hnil. cbn [saved_files].
        rewrite !app_nil_r. etrans; [| exact Hsub].
        apply submseteq_skips_l.
        by apply (todo_insert_sub prediction_path st.2 k _ _ [] Hk),
                 submseteq_nil_l.
      * by apply Forall_insert.
      * intros f Hf. rewrite !saved_files_app, Hnil in Hf. cbn [saved_files] in Hf.
        rewrite !app_nil_r in Hf. by apply Hmasks.
    + cbn [note_done fst snd fs trace].
      exists (evs ++ evs1). split_and!.
      * by rewrite Htr, <- !app_assoc.
      * by rewrite saved_files_app, Hnil, app_nil_r.
      * rewrite saved_files_app, Hnil, app_nil_r. etrans; [| exact Hsub].
        apply submseteq_skips_l.
        apply (todo_insert_sub prediction_path st.2 k _ _ [] Hk).
        cbn [todo app]. unfold Py.enumerate.
        by rewrite (enumerate_from_map_snd (mask_filename prediction_path)).
      * apply Forall_insert; [done |]. cbn [sound].
        apply infer_inv in Hrun as (? & ? & ? & ? & _ & _ & _ & _ & -> & _).
        apply where_gt_half_binary.
      * intros f Hf. rewrite saved_files_app, Hnil, app_nil_r in Hf.
        by apply Hmasks.
  - (* the loop is over *)
    injection Hstep as <- <-. cbn [note_done fst snd fs trace].
    exists (evs ++ [EvFutureDone k None]). split_and!.
    + by rewrite Htr, <- app_assoc.
    + rewrite saved_files_app. cbn [saved_files]. by rewrite app_nil_r.
    + rewrite saved_files_app. cbn [saved_files]. rewrite app_nil_r.
      etrans; [| exact Hsub]. apply submseteq_skips_l.
      by apply (todo_insert_sub prediction_path st.2 k _ _ [] Hk).
    + by apply Forall_insert.
    + intros f Hf. rewrite saved_files_app in Hf. cbn [saved_files] in Hf.
      rewrite app_nil_r in Hf. by apply Hmasks.
  - (* one turn of the loop *)
    cbn [sound] in Ht. rewrite save_one_run in Hstep.
    destruct (Np.getitem preds ip.1) as [e | mask] eqn:Hmask;
      cbn zeta in Hstep; injection Hstep as <- <-;
      cbn [note_done fst snd fs trace].
    + exists (evs ++ [EvFutureDone k (Some e)]). split_and!.
      * by rewrite Htr, <- app_assoc.
      * rewrite saved_files_app. cbn [saved_files]. by rewrite app_nil_r.
      * rewrite saved_files_app. cbn [saved_files]. rewrite app_nil_r.
        etrans; [| exact Hsub]. apply submseteq_skips_l.
        by apply (todo_insert_sub prediction_path st.2 k _ _ [] Hk),
                 submseteq_nil_l.
      * by apply Forall_insert.
      * intros f Hf. rewrite saved_files_app in Hf. cbn [saved_files] in Hf.
        rewrite app_nil_r in Hf. by apply Hmasks.
    + set (f := mask_filename prediction_path ip.2).
      exists (evs ++ [EvSaveMask f]). split_and!.
      * by rewrite Htr, <- app_assoc.
      * intros k'. rewrite saved_files_app. cbn [saved_files].
        intros Hk'. apply not_elem_of_app in Hk' as [Hk1 Hk2].
        cbn [fst fs]. unfold save_mask.
        rewrite lookup_insert_ne; [by apply Hframe |].
        intros ->. apply Hk2. by left.
      * rewrite saved_files_app. cbn [saved_files].
        rewrite <- app_assoc. etrans; [| exact Hsub].
        apply submseteq_skips_l.
        by apply (todo_insert_sub prediction_path st.2 k _ _ [f] Hk).
      * by apply Forall_insert.
      * intros f' Hf'. rewrite saved_files_app in Hf'. cbn [saved_files] in Hf'.
        cbn [fst fs]. unfold save_mask.
        destruct (decide (f' = f)) as [-> | Hne].
        -- exists mask. rewrite lookup_insert_eq. split; [done |].
           by eapply getitem_binary.
        -- rewrite lookup_insert_ne by done. apply Hmasks.
           apply elem_of_app in Hf' as [Hf' | Hf']; [done |].
           apply list_elem_of_singleton in Hf'. done.
  - done.
Qed.

Lemma safe_inv_rtc (st st' : world * list task) :
  safe_inv prediction_path fs0 tr0 targets st ->
  rtc (pool_step ext model prediction_path) st st' ->
  safe_inv prediction_path fs0 tr0 targets st'.
Proof.
  intros Hinv Hrtc. induction Hrtc as [| st st1 st2 Hs _ IH]; [done |].
  apply IH. by eapply safe_inv_step.
Qed.

End Safe.

(** X3.  Whatever the scheduler does and whichever batches fail, the pool
    only ever writes mask files of submitted paths: the files it saves are,
    counting repetitions, among the files [{prediction_path}/{stem}.png] of
    the submitted paths; every path it did not save -- every input tile that
    is not itself such a file, in particular -- keeps the entry it had; and
    every file it saved holds a mask of zeros and ones when the pool is
    done. *)
Theorem X3_pool_writes_only_masks (ext : Externals) (model : Model ext)
    (prediction_path : string) (batches : list (list string))
    (fs0 : FS) (tr0 : list event) (sched : list nat) :
  let targets := map (mask_filename prediction_path) (concat batches) in
  let st := drive ext model prediction_path sched
              (World fs0 tr0, map Queued batches) in
  exists evs,
    trace st.1 = tr0 ++ evs /\
    saved_files evs ⊆+ targets /\
    (forall k, k ∉ saved_files evs -> fs st.1 !! k = fs0 !! k) /\
    (forall k, k ∉ targets -> fs st.1 !! k = fs0 !! k) /\
    (forall f, f ∈ saved_files evs ->
       exists m, fs st.1 !! f = Some (File (Mask m)) /\ binary_mask m).
Proof.
  intros targets st.
  assert (Hstart : safe_inv prediction_path fs0 tr0 targets
                     (World fs0 tr0, map Queued batches)).
  { exists []. cbn [fst snd fs trace saved_files app]. split_and!.
    - by rewrite app_nil_r.
    - done.
    - by rewrite concat_todo_queued.
    - apply Forall_fmap, Forall_true. done.
    - intros f Hf. by apply elem_of_nil in Hf. }
  destruct (drive_finished ext model prediction_path sched
              (World fs0 tr0, map Queued batches)) as (Hrtc & _ & _).
  fold st in Hrtc.
  destruct (safe_inv_rtc ext model prediction_path fs0 tr0 targets _ _
              Hstart Hrtc)
    as (evs & Htr & Hframe & Hsub & _ & Hmasks).
  assert (Hsaved : saved_files evs ⊆+ targets).
  { etrans; [| exact Hsub]. by apply submseteq_inserts_r. }
  exists evs. split_and!; try done.
  intros k Hk. apply Hframe. intros Hin. apply Hk.
  by eapply elem_of_submseteq.
Qed.

(** ** Every tile in one batch (lines 72-80) *)

Lemma image_batches_lookup (image_paths : list string) (i j : nat) (p : string) :
  (exists b, image_batches image_paths !! i = Some b /\ b !! j = Some p) <->
  (j < 8)%nat /\ image_paths !! (8 * i + j)%nat = Some p.
Proof.
  rewrite image_batches_chunks.
  pose proof (ceil_div_8_bounds (Py.len image_paths)) as Hn.
  set (n := Py.ceil_div (Py.len image_paths) 8) in *.
  unfold Py.len in Hn. split.
  - intros (b & Hb & Hj). rewrite list_lookup_fmap in Hb.
    destruct (seq 0 (Z.to_nat n) !! i) as [i' |] eqn:Hi; [| done].
    apply lookup_seq in Hi as [-> _]. injection Hb as <-.
    apply lookup_take_Some in Hj as [Hj Hlt]. by rewrite lookup_drop in Hj.
  - intros [Hj Hp]. exists (take 8 (drop (8 * i) image_paths)). split.
    + rewrite list_lookup_fmap, lookup_seq_lt; [done |].
      apply lookup_lt_Some in Hp. lia.
    + by rewrite lookup_take_lt, lookup_drop.
Qed.

(** X6.  Every tile of a listing without repetition -- such as the one
    [predict] gets from [glob] -- sits in exactly one of the batches
    [predict] cuts, at exactly one position: no tile is submitted twice and
    none is left out. *)
Theorem X6_each_tile_in_exactly_one_batch (image_paths : list string)
    (p : string) :
  NoDup image_paths -> p ∈ image_paths ->
  exists i j,
    (exists b, image_batches image_paths !! i = Some b /\ b !! j = Some p) /\
    forall i' j' b',
      image_batches image_paths !! i' = Some b' -> b' !! j' = Some p ->
      i' = i /\ j' = j.
Proof.
  intros Hnd [m Hm]%list_elem_of_lookup.
  exists (m / 8)%nat, (m mod 8)%nat. split.
  - apply image_batches_lookup.
    pose proof (Nat.div_mod_eq m 8). pose proof (Nat.mod_upper_bound m 8).
    split; [lia |]. by replace (8 * (m / 8) + m mod 8)%nat with m by lia.
  - intros i' j' b' Hb' Hj'.
    assert (H : (j' < 8)%nat /\ image_paths !! (8 * i' + j')%nat = Some p)
      by (apply image_batches_lookup; eauto).
    destruct H as [Hlt Hp].
    pose proof (NoDup_lookup _ _ _ _ Hnd Hp Hm) as <-.
    split.
    + rewrite Nat.mul_comm, Nat.div_add_l by lia.
      rewrite Nat.div_small by lia. lia.
    + rewrite Nat.add_comm, Nat.mul_comm, Nat.Div0.mod_add.
      symmetry. by apply Nat.mod_small.
Qed.

(** X6 on the listing of the sample world. *)
Lemma X6_each_tile_witness :
  exists i j,
    (exists b,
        image_batches (Os.glob "tiles/*.png" Sample.fs_two_tiles) !! i = Some b /\
        b !! j = Some "tiles/b.png") /\
    forall i' j' b',
      image_batches (Os.glob "tiles/*.png" Sample.fs_two_tiles) !! i' = Some b' ->
      b' !! j' = Some "tiles/b.png" ->
      i' = i /\ j' = j.
Proof.
  apply X6_each_tile_in_exactly_one_batch.
  - apply glob_NoDup.
  - change (Os.glob "tiles/*.png" Sample.fs_two_tiles)
      with ["tiles/a.png"; "tiles/b.png"].
    right. left.
Defined.

(** ** How often the model is called (line 29) *)

Lemma concat_map_insert_sub {X} (g : task -> list X) (pool : list task)
    (k : nat) (t t' : task) (extra : list X) :
  pool !! k = Some t ->
  extra ++ g t' ⊆+ g t ->
  extra ++ concat (map g (<[k := t']> pool)) ⊆+ concat (map g pool).
Proof.
  intros Hk Ht.
  rewrite insert_take_drop by (by eapply lookup_lt_Some).
  rewrite <- (take_drop_middle pool k t Hk) at 3.
  rewrite !map_app, !concat_app. cbn [map concat].
  rewrite (Permutation_app_swap_app extra).
  apply submseteq_skips_l. rewrite app_assoc.
  by apply submseteq_app.
Qed.

Lemma inference_inv_step (ext : Externals) (model : Model ext)
    (prediction_path : string) (tr0 : list event)
    (batches : list (list string)) (st st' : world * list task) :
  inference_inv tr0 batches st ->
  pool_step ext model prediction_path st st' ->
  inference_inv tr0 batches st'.
Proof.
  intros (evs & Htr & Hsub) Hstep.
  inversion Hstep as [k ? ? Hpick]; subst. clear Hstep.
  apply pick_inv in Hpick as (t & t' & w' & Hk & Hstep & ->).
  assert (Hgoal : exists evs1,
            trace (note_done k t' w') = trace st.1 ++ evs1 /\
            List.filter is_inference evs1 ++ waiting t' ⊆+ waiting t).
  { destruct t as [b | preds [| ip rest] | exc]; cbn [task_step] in Hstep.
    - destruct (infer_run ext model b st.1) as (r & evs1 & Hrun & Hevs1).
      rewrite Hrun in Hstep.
      destruct r as [e | preds]; injection Hstep as <- <-;
        cbn [note_done fst snd fs trace waiting].
      + exists (evs1 ++ [EvFutureDone k (Some e)]).
        split; [by rewrite <- app_assoc |].
        rewrite List.filter_app. cbn [List.filter is_inference].
        rewrite !app_nil_r.
        destruct Hevs1 as [-> | ->]; cbn; [apply submseteq_nil_l | done].
      + exists evs1. split; [done |]. rewrite app_nil_r.
        destruct Hevs1 as [-> | ->]; cbn; [apply submseteq_nil_l | done].
    - injection Hstep as <- <-. cbn [note_done fst snd fs trace waiting].
      by exists [EvFutureDone k None].
    - rewrite save_one_run in Hstep.
      destruct (Np.getitem preds ip.1) as [e | mask];
        cbn zeta in Hstep; injection Hstep as <- <-;
        cbn [note_done fst snd fs trace waiting]; by eexists [_].
    - done. }
  destruct Hgoal as (evs1 & Htr1 & Hsub1).
  exists (evs ++ evs1). cbn [fst snd]. split.
  - by rewrite Htr1, Htr, <- app_assoc.
  - rewrite List.filter_app, <- app_assoc. etrans; [| exact Hsub].
    apply submseteq_skips_l.
    by apply (concat_map_insert_sub waiting st.2 k t t').
Qed.

(** X7.  Whatever the scheduler does, the model is called at most once per
    submitted batch, and each call is on one of the submitted batches: the
    inferences in the trace of the pool are, counting repetitions, among the
    submitted batches, so there are at most as many as batches. *)
Theorem X7_at_most_one_inference_per_batch (ext : Externals)
    (model : Model ext) (prediction_path : string)
    (batches : list (list string)) (fs0 : FS) (tr0 : list event)
    (sched : list nat) :
  let st := drive ext model prediction_path sched
              (World fs0 tr0, map Queued batches) in
  exists evs,
    trace st.1 = tr0 ++ evs /\
    List.filter is_inference evs ⊆+ map EvInference batches /\
    (length (List.filter is_inference evs) <= length batches)%nat.
Proof.
  intros st.
  assert (Hstart : inference_inv tr0 batches (World fs0 tr0, map Queued batches)).
  { exists []. cbn [fst snd trace List.filter app]. split; [by rewrite app_nil_r |].
    assert (concat (map waiting (map Queued batches)) = map EvInference batches)
      as ->; [| done].
    clear. induction batches as [| b batches IH]; [done |].
    cbn [map concat waiting app]. by rewrite IH. }
  destruct (drive_finished ext model prediction_path sched
              (World fs0 tr0, map Queued batches)) as (Hrtc & _ & _).
  fold st in Hrtc.
  assert (Hend : inference_inv tr0 batches st).
  { clear -Hstart Hrtc. induction Hrtc as [| s s1 s2 Hs _ IH]; [done |].
    apply IH. by eapply inference_inv_step. }
  destruct Hend as (evs & Htr & Hsub).
  assert (Hinf : List.filter is_inference evs ⊆+ map EvInference batches).
  { etrans; [| exact Hsub]. by apply submseteq_inserts_r. }
  exists evs. split_and!; [done | done |].
  apply submseteq_length in Hinf. by rewrite length_map in Hinf.
Qed.

(** ** The masks do not depend on the schedule (lines 74-82) *)

Lemma assignments_fst (prediction_path : string) (batches : list (list string)) :
  (assignments prediction_path batches).*1
  = map (mask_filename prediction_path) (concat batches).
Proof.
  unfold assignments. induction batches as [| b batches IH]; [done |].
  cbn [map concat]. rewrite fmap_app, map_app, IH. f_equal.
  rewrite <- list_fmap_compose. unfold Py.enumerate.
  apply (enumerate_from_map_snd (mask_filename prediction_path)).
Qed.

Lemma elem_of_assignments (prediction_path : string)
    (batches : list (list string)) (b : list string) (ip : Z * string) :
  b ∈ batches -> ip ∈ Py.enumerate b ->
  (mask_filename prediction_path ip.2, (b, ip.1))
    ∈ assignments prediction_path batches.
Proof.
  intros Hb Hip. unfold assignments.
  apply list_elem_of_In, in_concat.
  exists (map (fun ip : Z * string =>
                 (mask_filename prediction_path ip.2, (b, ip.1)))
              (Py.enumerate b)).
  split.
  - apply in_map_iff. exists b. split; [done | by apply list_elem_of_In].
  - apply in_map_iff. exists ip. split; [done | by apply list_elem_of_In].
Qed.

Lemma assignments_functional (prediction_path : string)
    (batches : list (list string)) (f : string) (x y : list string * Z) :
  NoDup (map (mask_filename prediction_path) (concat batches)) ->
  (f, x) ∈ assignments prediction_path batches ->
  (f, y) ∈ assignments prediction_path batches ->
  x = y.
Proof.
  intros Hnd Hx Hy. rewrite <- assignments_fst in Hnd.
  pose proof (elem_of_list_to_map_1
                (M := gmap string) (assignments prediction_path batches)
                f x Hnd Hx) as H1.
  pose proof (elem_of_list_to_map_1
                (M := gmap string) (assignments prediction_path batches)
                f y Hnd Hy) as H2.
  congruence.
Qed.

Section Content.

Context (ext : Externals) (model : Model ext) (prediction_path : string).
Context (preds_of : list string -> ndarray Z).
Context (fs0 : FS) (targets : list string) (batches : list (list string)).
Hypothesis batches_infer :
  forall b fs1, b ∈ batches ->
    (forall k, k ∉ targets -> fs1 !! k = fs0 !! k) ->
    (infer ext model b (World fs1 [])).2 = inr (preds_of b).

Lemma content_inv_step (tr0 : list event) (st st' : world * list task) :
  (forall k, k ∉ targets -> fs st.1 !! k = fs0 !! k) ->
  content_inv prediction_path preds_of batches tr0 st ->
  pool_step ext model prediction_path st st' ->
  content_inv prediction_path preds_of batches tr0 st'.
Proof.
  intros Hframe (evs & Htr & Htracked & Hmasks) Hstep.
  inversion Hstep as [k ? ? Hpick]; subst. clear Hstep.
  apply pick_inv in Hpick as (t & t' & w' & Hk & Hstep & ->).
  pose proof (Forall_lookup_1 _ _ _ _ Htracked Hk) as Ht.
  destruct t as [b | preds [| ip rest] | exc]; cbn [task_step] in Hstep.
  - cbn [tracked] in Ht.
    pose proof (batches_infer b (fs st.1) Ht Hframe) as Hpreds.
    rewrite infer_on_fs, Hpreds in Hstep. injection Hstep as <- <-.
    destruct (infer_run ext model b (World (fs st.1) []))
      as (r & evs1 & Hrun & Hevs1).
    rewrite Hrun. cbn [fst snd fs trace app note_done].
    assert (Hnil : saved_files evs1 = []) by (by destruct Hevs1 as [-> | ->]).
    exists (evs ++ evs1). split_and!.
    + by rewrite Htr, <- app_assoc.
    + apply Forall_insert; [done |]. cbn [tracked]. by exists b, [].
    + intros f Hf. rewrite saved_files_app, Hnil, app_nil_r in Hf.
      by apply Hmasks.
  - injection Hstep as <- <-. cbn [note_done fst snd fs trace].
    exists (evs ++ [EvFutureDone k None]). split_and!.
    + by rewrite Htr, <- app_assoc.
    + by apply Forall_insert.
    + intros f Hf. rewrite saved_files_app in Hf. cbn [saved_files] in Hf.
      rewrite app_nil_r in Hf. by apply Hmasks.
  - cbn [tracked] in Ht. destruct Ht as (b & done & Hb & -> & Henum).
    rewrite save_one_run in Hstep.
    destruct (Np.getitem (preds_of b) ip.1) as [e | mask] eqn:Hmask;
      cbn zeta in Hstep; injection Hstep as <- <-;
      cbn [note_done fst snd fs trace].
    + exists (evs ++ [EvFutureDone k (Some e)]). split_and!.
      * by rewrite Htr, <- app_assoc.
      * by apply Forall_insert.
      * intros f Hf. rewrite saved_files_app in Hf. cbn [saved_files] in Hf.
        rewrite app_nil_r in Hf. by apply Hmasks.
    + set (f := mask_filename prediction_path ip.2).
      exists (evs ++ [EvSaveMask f]). split_and!.
      * by rewrite Htr, <- app_assoc.
      * apply Forall_insert; [done |]. cbn [tracked].
        exists b, (done ++ [ip]). split_and!; [done | done |].
        by rewrite <- app_assoc.
      * intros f' Hf'. rewrite saved_files_app in Hf'. cbn [saved_files] in Hf'.
        cbn [fst fs]. unfold save_mask.
        destruct (decide (f' = f)) as [-> | Hne].
        -- exists b, ip.1, mask. rewrite lookup_insert_eq.
           split_and!; [| done | done].
           apply elem_of_assignments; [done |].
           rewrite Henum. apply elem_of_app. right. by left.
        -- rewrite lookup_insert_ne by done. apply Hmasks.
           apply elem_of_app in Hf' as [Hf' | Hf']; [done |].
           apply list_elem_of_singleton in Hf'. done.
  - done.
Qed.

End Content.

Lemma finished_no_todo (prediction_path : string) (pool : list task) :
  Forall (fun t => is_finished t = true) pool ->
  concat (map (todo prediction_path) pool) = [].
Proof.
  induction 1 as [| t pool Ht _ IH]; [done |].
  cbn [map concat]. rewrite IH. by destruct t.
Qed.

Lemma pool_contents (ext : Externals) (model : Model ext)
    (prediction_path : string) (preds_of : list string -> ndarray Z)
    (batches : list (list string)) (fs0 : FS) (tr0 : list event)
    (sched : list nat) :
  (forall b fs1, b ∈ batches ->
     (forall k, k ∉ map (mask_filename prediction_path) (concat batches) ->
                fs1 !! k = fs0 !! k) ->
     (infer ext model b (World fs1 [])).2 = inr (preds_of b) /\
     exists n inner, shape (preds_of b) = n :: inner /\ Py.len b <= n) ->
  let targets := map (mask_filename prediction_path) (concat batches) in
  let st := drive ext model prediction_path sched
              (World fs0 tr0, map Queued batches) in
  (forall k, k ∉ targets -> fs st.1 !! k = fs0 !! k) /\
  (forall k, k ∈ targets ->
     exists b idx m,
       (k, (b, idx)) ∈ assignments prediction_path batches /\
       Np.getitem (preds_of b) idx = inr m /\
       fs st.1 !! k = Some (File (Mask m))).
Proof.
  intros Hinfer targets st.
  assert (Hload : forall b fs1, b ∈ batches ->
            (forall k, k ∉ targets -> fs1 !! k = fs0 !! k) ->
            batch_loads ext model b fs1).
  { intros b fs1 Hb Hfr. destruct (Hinfer b fs1 Hb Hfr) as (Hp & n & inner & Hs & Hn).
    by exists (preds_of b), n, inner. }
  assert (Hinfer' : forall b fs1, b ∈ batches ->
            (forall k, k ∉ targets -> fs1 !! k = fs0 !! k) ->
            (infer ext model b (World fs1 [])).2 = inr (preds_of b)).
  { intros b fs1 Hb Hfr. by destruct (Hinfer b fs1 Hb Hfr). }
  destruct (drive_finished ext model prediction_path sched
              (World fs0 tr0, map Queued batches)) as (Hrtc & _ & Hfin).
  fold st in Hrtc, Hfin.
  assert (Hboth :
    writes_inv prediction_path fs0 tr0 targets batches st /\
    content_inv prediction_path preds_of batches tr0 st).
  { assert (H0 :
      writes_inv prediction_path fs0 tr0 targets batches
        (World fs0 tr0, map Queued batches) /\
      content_inv prediction_path preds_of batches tr0
        (World fs0 tr0, map Queued batches)).
    { split.
      - exists []. cbn [fst snd fs trace saved_files app]. split_and!.
        + by rewrite app_nil_r.
        + done.
        + by rewrite concat_todo_queued.
        + apply Forall_fmap, Forall_forall. by intros b Hb.
        + intros f Hf. by apply elem_of_nil in Hf.
      - exists []. cbn [fst snd fs trace saved_files]. split_and!.
        + by rewrite app_nil_r.
        + apply Forall_fmap, Forall_forall. by intros b Hb.
        + intros f Hf. by apply elem_of_nil in Hf. }
    clear Hfin. induction Hrtc as [| s s1 s2 Hs _ IH]; [done |].
    apply IH. destruct H0 as [Hw Hc]. split.
    - by eapply writes_inv_step.
    - eapply content_inv_step; [exact Hinfer' | | exact Hc | exact Hs].
      by destruct Hw as (? & _ & ? & _). }
  destruct Hboth as [(evs & Htr & Hframe & Hperm & _ & _)
                       (evs' & Htr' & _ & Hcontent)].
  assert (evs' = evs) as ->.
  { rewrite Htr in Htr'. by apply app_inv_head in Htr'. }
  rewrite (finished_no_todo prediction_path st.2 Hfin), app_nil_r in Hperm.
  split; [done |].
  intros k Hk. apply Hcontent. by rewrite Hperm.
Qed.

(** X8.  Take batches whose paths have pairwise distinct stems and which,
    in every file system that differs from the initial one at mask files
    only, infer without error to the same predictions, at least one per
    path.  Then the file system the pool leaves is the same under every
    scheduler: the order in which the workers take their turns changes
    neither which files exist nor what any of them holds. *)
Theorem X8_masks_do_not_depend_on_schedule (ext : Externals)
    (model : Model ext) (prediction_path : string)
    (preds_of : list string -> ndarray Z) (batches : list (list string))
    (fs0 : FS) (tr1 tr2 : list event) (sched1 sched2 : list nat) :
  NoDup (map Py.stem (concat batches)) ->
  (forall b fs1, b ∈ batches ->
     (forall k, k ∉ map (mask_filename prediction_path) (concat batches) ->
                fs1 !! k = fs0 !! k) ->
     (infer ext model b (World fs1 [])).2 = inr (preds_of b) /\
     exists n inner, shape (preds_of b) = n :: inner /\ Py.len b <= n) ->
  fs (drive ext model prediction_path sched1
        (World fs0 tr1, map Queued batches)).1
  = fs (drive ext model prediction_path sched2
          (World fs0 tr2, map Queued batches)).1.
Proof.
  intros Hstems Hinfer.
  destruct (pool_contents ext model prediction_path preds_of batches fs0 tr1
              sched1 Hinfer) as [Hout1 Hin1].
  destruct (pool_contents ext model prediction_path preds_of batches fs0 tr2
              sched2 Hinfer) as [Hout2 Hin2].
  apply map_eq. intros k.
  destruct (decide (k ∈ map (mask_filename prediction_path) (concat batches)))
    as [Hk | Hk].
  - destruct (Hin1 k Hk) as (b1 & i1 & m1 & Ha1 & Hg1 & ->).
    destruct (Hin2 k Hk) as (b2 & i2 & m2 & Ha2 & Hg2 & ->).
    pose proof (assignments_functional prediction_path batches k _ _
                  (mask_filename_NoDup prediction_path _ Hstems) Ha1 Ha2) as Heq.
    injection Heq as <- <-. congruence.
  - by rewrite Hout1, Hout2.
Qed.

(** X8 on two sample tiles in two batches, under two schedulers. *)
Lemma X8_masks_schedule_witness :
  fs (drive Sample.ext_ok Sample.two_class_model "out" [1; 0; 1; 0]%nat
        (World Sample.fs_two_tiles [],
         map Queued [["tiles/a.png"]; ["tiles/b.png"]])).1
  = fs (drive Sample.ext_ok Sample.two_class_model "out" []
          (World Sample.fs_two_tiles [],
           map Queued [["tiles/a.png"]; ["tiles/b.png"]])).1.
Proof.
  apply (X8_masks_do_not_depend_on_schedule Sample.ext_ok
           Sample.two_class_model "out"
           (fun _ =>
              Np.where_gt_half (Np.expand_dims_last
                (NdArray (1 :: 256 :: 256 :: nil)
                   (fun i => match Np.argmax_row Z.leb (fun _ => false)
                                     (Np.row (NdArray (1 :: 256 :: 256 :: 2 :: nil)
                                        (fun i => if (i mod 2 =? (i / 2) mod 2)
                                                  then 1 else 0)) 2 i) with
                             | Some k => k
                             | None => 0
                             end))))).
  - change (NoDup ["a"; "b"]). apply NoDup_cons.
    split; [| apply NoDup_singleton].
    intros H%list_elem_of_singleton. discriminate H.
  - intros b fs1 Hb _.
    assert (Hone : exists p : string, b = [p]).
    { apply elem_of_cons in Hb as [-> | Hb]; [by eexists |].
      apply list_elem_of_singleton in Hb as ->. by eexists. }
    destruct Hone as [p ->].
    split; [reflexivity |].
    exists 1, (256 :: 256 :: 1 :: nil). split; [reflexivity |].
    vm_compute. discriminate.
Defined.

(** ** One batch in the pool is [process_batch] (lines 25-40, 79) *)

Lemma single_pool_step_deterministic (ext : Externals) (model : Model ext)
    (prediction_path : string) (st s1 s2 : world * list task) :
  length st.2 = 1%nat ->
  pool_step ext model prediction_path st s1 ->
  pool_step ext model prediction_path st s2 ->
  s1 = s2.
Proof.
  intros Hlen H1 H2.
  inversion H1 as [k1 ? ? Hp1]; inversion H2 as [k2 ? ? Hp2]; subst.
  assert (Hk : forall k s, pick ext model prediction_path k st = Some s ->
                           k = 0%nat).
  { intros k s Hp. apply pick_inv in Hp as (t & _ & _ & Hk%lookup_lt_Some & _).
    lia. }
  rewrite (Hk k1 s1 Hp1) in Hp1. rewrite (Hk k2 s2 Hp2) in Hp2. congruence.
Qed.

Lemma finished_no_step (ext : Externals) (model : Model ext)
    (prediction_path : string) (st s : world * list task) :
  Forall (fun t => is_finished t = true) st.2 ->
  pool_step ext model prediction_path st s -> False.
Proof.
  intros Hfin Hs. inversion Hs as [k ? ? Hp]; subst.
  assert (pick ext model prediction_path k st = None) as Hnone; [| congruence].
  apply pick_None. intros t Ht. rewrite Forall_lookup in Hfin. by eapply Hfin.
Qed.

Lemma single_pool_confluent (ext : Externals) (model : Model ext)
    (prediction_path : string) (st a b : world * list task) :
  length st.2 = 1%nat ->
  rtc (pool_step ext model prediction_path) st a ->
  rtc (pool_step ext model prediction_path) st b ->
  Forall (fun t => is_finished t = true) a.2 ->
  Forall (fun t => is_finished t = true) b.2 ->
  a = b.
Proof.
  intros Hlen Ha. revert Hlen b.
  induction Ha as [x | x s1 a Hs1 _ IH]; intros Hlen b Hb Hfa Hfb.
  - inversion Hb as [| ? s2 ? Hs2 Hb']; subst; [done |].
    by destruct (finished_no_step ext model prediction_path x s2 Hfa Hs2).
  - inversion Hb as [| ? s2 ? Hs2 Hb']; subst.
    + by destruct (finished_no_step ext model prediction_path b s1 Hfb Hs1).
    + pose proof (single_pool_step_deterministic _ _ _ _ _ _ Hlen Hs1 Hs2) as <-.
      apply IH; try done.
      rewrite <- Hlen. by eapply pool_step_length.
Qed.

Lemma saving_single_rtc (ext : Externals) (model : Model ext)
    (prediction_path : string) (preds : ndarray Z) (rest : list (Z * string))
    (w : world) :
  let r := save_loop prediction_path preds rest w in
  rtc (pool_step ext model prediction_path) (w, [Saving preds rest])
      (World (fs r.1) (trace r.1 ++ [EvFutureDone 0 (raised r.2)]),
       [Finished (raised r.2)]).
Proof.
  cbn zeta. revert w. induction rest as [| ip rest IH]; intros w.
  - apply rtc_once. by apply (Pool_step _ _ _ 0%nat).
  - assert (Heq : save_loop prediction_path preds (ip :: rest) w
                  = match Np.getitem preds ip.1 with
                    | inl e => (w, inl e)
                    | inr mask =>
                        save_loop prediction_path preds rest
                          (World (save_mask mask
                                    (mask_filename prediction_path ip.2) (fs w))
                                 (trace w ++ [EvSaveMask
                                    (mask_filename prediction_path ip.2)]))
                    end).
    { cbn [save_loop]. unfold bind. rewrite save_one_run.
      by destruct (Np.getitem preds ip.1). }
    rewrite Heq. clear Heq.
    destruct (Np.getitem preds ip.1) as [e | mask] eqn:Hg.
    + apply rtc_once. apply (Pool_step _ _ _ 0%nat).
      unfold pick. cbn [snd fst lookup list_lookup task_step].
      rewrite save_one_run, Hg. done.
    + eapply rtc_l; [| apply IH].
      apply (Pool_step _ _ _ 0%nat).
      unfold pick. cbn [snd fst lookup list_lookup task_step].
      rewrite save_one_run, Hg. done.
Qed.

Lemma queued_single_rtc (ext : Externals) (model : Model ext)
    (prediction_path : string) (image_batch : list string) (w : world) :
  let r := process_batch ext image_batch model prediction_path w in
  rtc (pool_step ext model prediction_path) (w, [Queued image_batch])
      (World (fs r.1) (trace r.1 ++ [EvFutureDone 0 (raised r.2)]),
       [Finished (raised r.2)]).
Proof.
  cbn zeta. rewrite process_batch_run.
  destruct (infer ext model image_batch w) as [w1 [e | preds]] eqn:Hi.
  - apply rtc_once. apply (Pool_step _ _ _ 0%nat).
    unfold pick. cbn [snd fst lookup list_lookup task_step]. by rewrite Hi.
  - eapply rtc_l; [| apply saving_single_rtc].
    apply (Pool_step _ _ _ 0%nat).
    unfold pick. cbn [snd fst lookup list_lookup task_step]. by rewrite Hi.
Qed.

(** X10.  A pool that holds a single batch ends, under every scheduler, in
    the world in which [process_batch] leaves things when it is called
    directly on that batch, with one more event: the completion of the
    future, which holds the exception [process_batch] raised, if any. *)
Theorem X10_single_batch_pool_is_process_batch (ext : Externals)
    (model : Model ext) (prediction_path : string)
    (image_batch : list string) (w : world) (sched : list nat) :
  let r := process_batch ext image_batch model prediction_path w in
  drive ext model prediction_path sched (w, [Queued image_batch])
  = (World (fs r.1) (trace r.1 ++ [EvFutureDone 0 (raised r.2)]),
     [Finished (raised r.2)]).
Proof.
  cbn zeta.
  destruct (drive_finished ext model prediction_path sched
              (w, [Queued image_batch])) as (Hrtc & _ & Hfin).
  eapply (single_pool_confluent ext model prediction_path
            (w, [Queued image_batch])); try done.
  - apply queued_single_rtc.
  - by repeat constructor.
Qed.

(** ** A batch that fails before its loop, a batch that returns (lines 25-40) *)

(** X11.  When loading, reshaping, inference or the arg-max of a batch
    raises [e], [process_batch] raises [e] and has written no mask: the file
    system is unchanged.  The model was called exactly when the images were
    loaded and reshaped. *)
Theorem X11_failed_batch_writes_nothing (ext : Externals) (model : Model ext)
    (image_batch : list string) (prediction_path : string) (w : world)
    (e : exn) :
  (infer ext model image_batch w).2 = inl e ->
  exists evs,
    process_batch ext image_batch model prediction_path w
      = (World (fs w) (trace w ++ evs), inl e) /\
    saved_files evs = [] /\
    (evs = [] \/ evs = [EvInference image_batch]) /\
    (evs = [EvInference image_batch] <->
     exists images reshaped,
       open_images ext (fs w) image_batch = inr images /\
       Np.reshape_m1 images [IMAGE_SIZE; IMAGE_SIZE; 3] = inr reshaped).
Proof.
  intros He. rewrite process_batch_run.
  unfold infer in *. run_M.
  destruct (open_images ext (fs w) image_batch) as [e0 | images].
  { injection He as ->. exists []. rewrite world_eta.
    split_and!; [done | done | by left |].
    split; [done | by intros (? & ? & ? & _)]. }
  destruct (Np.reshape_m1 images _) as [e0 | reshaped] eqn:Hr.
  { injection He as ->. exists []. rewrite world_eta.
    split_and!; [done | done | by left |].
    split; [done |]. intros (i0 & r0 & [= <-] & Hr'). congruence. }
  cbn [fs trace] in *. exists [EvInference image_batch].
  destruct (model reshaped) as [e0 | scores].
  { injection He as ->. split_and!; [done | done | by right |].
    split; [by eauto | done]. }
  destruct (Np.argmax_last _ _ scores) as [e0 | classes]; [| done].
  injection He as ->. split_and!; [done | done | by right |].
  split; [by eauto | done].
Qed.

(** X11 on a batch for which the loader returns 100 numbers: the reshape
    raises and nothing is written. *)
Lemma X11_failed_batch_witness :
  exists evs,
    process_batch Sample.ext_ragged ["tiles/a.png"] Sample.two_class_model "out"
      (Sample.world_of Sample.fs_two_tiles)
    = (World Sample.fs_two_tiles ([] ++ evs),
       inl (ValueError "cannot reshape array")) /\
    saved_files evs = [].
Proof.
  destruct (X11_failed_batch_writes_nothing Sample.ext_ragged
              Sample.two_class_model ["tiles/a.png"] "out"
              (Sample.world_of Sample.fs_two_tiles)
              (ValueError "cannot reshape array") eq_refl)
    as (evs & Hrun & Hnil & _).
  exists evs. split; [exact Hrun | exact Hnil].
Defined.

Lemma loop_outcome_ok (preds : ndarray Z) (rest : list (Z * string)) :
  loop_outcome preds rest = inr tt ->
  saved_prefix preds rest = rest /\
  Forall (fun ip => exists mask, Np.getitem preds ip.1 = inr mask) rest.
Proof.
  induction rest as [| ip rest IH]; cbn [loop_outcome saved_prefix]; [done |].
  destruct (Np.getitem preds ip.1) as [e | mask] eqn:Hg; [done |].
  intros H. destruct (IH H) as [-> Hall]. split; [done |].
  constructor; [by exists mask | done].
Qed.

Lemma foldl_save_at_keeps_masks (prediction_path : string) (preds : ndarray Z)
    (rest : list (Z * string)) (fs0 : FS) (f : string) :
  binary_mask preds ->
  (exists m, fs0 !! f = Some (File (Mask m)) /\ binary_mask m) ->
  exists m, foldl (save_at prediction_path preds) fs0 rest !! f
              = Some (File (Mask m)) /\ binary_mask m.
Proof.
  intros Hbin. revert fs0. induction rest as [| ip rest IH]; intros fs0 Hf;
    [done |].
  cbn [foldl]. apply IH. unfold save_at, save_mask.
  destruct (Np.getitem preds ip.1) as [e | mask] eqn:Hg; [done |].
  destruct (decide (mask_filename prediction_path ip.2 = f)) as [<- | Hne].
  - exists mask. rewrite lookup_insert_eq. split; [done |].
    by eapply getitem_binary.
  - by rewrite lookup_insert_ne.
Qed.

Lemma foldl_save_at_all_masks (prediction_path : string) (preds : ndarray Z)
    (rest : list (Z * string)) (fs0 : FS) (ip : Z * string) :
  binary_mask preds ->
  Forall (fun ip => exists mask, Np.getitem preds ip.1 = inr mask) rest ->
  ip ∈ rest ->
  exists m, foldl (save_at prediction_path preds) fs0 rest
              !! mask_filename prediction_path ip.2
            = Some (File (Mask m)) /\ binary_mask m.
Proof.
  intros Hbin Hall. revert fs0.
  induction Hall as [| ip0 rest [mask Hg] _ IH]; intros fs0 Hin.
  - by apply elem_of_nil in Hin.
  - cbn [foldl]. apply elem_of_cons in Hin as [-> | Hin]; [| by apply IH].
    apply foldl_save_at_keeps_masks; [done |].
    unfold save_at, save_mask. rewrite Hg. exists mask.
    rewrite lookup_insert_eq. split; [done |]. by eapply getitem_binary.
Qed.

(** X12.  When [process_batch] returns normally, it called the model once
    and then saved one mask per path of the batch, in the order of the
    batch, and nothing else; afterwards the file
    [{prediction_path}/{stem}.png] of every path of the batch holds a mask
    of zeros and ones. *)
Theorem X12_normal_return_saves_every_path (ext : Externals) (model : Model ext)
    (image_batch : list string) (prediction_path : string) (w : world) :
  let r := process_batch ext image_batch model prediction_path w in
  r.2 = inr tt ->
  exists preds,
    binary_mask preds /\
    trace r.1 = trace w ++ EvInference image_batch
                :: map (fun p => EvSaveMask (mask_filename prediction_path p))
                       image_batch /\
    fs r.1 = foldl (save_at prediction_path preds) (fs w)
                   (Py.enumerate image_batch) /\
    forall p, p ∈ image_batch ->
      exists m, fs r.1 !! mask_filename prediction_path p = Some (File (Mask m))
                /\ binary_mask m.
Proof.
  cbn zeta. rewrite process_batch_run.
  destruct (infer ext model image_batch w) as [w1 [e | preds]] eqn:Hi; [done |].
  rewrite save_loop_run. cbn [fst snd fs trace]. intros Hok.
  apply loop_outcome_ok in Hok as [Hpre Hall]. rewrite Hpre.
  apply infer_inv in Hi as (? & ? & ? & classes & _ & _ & _ & _ & -> & ->).
  cbn [fs trace].
  assert (Hbin : binary_mask (Np.where_gt_half (Np.expand_dims_last classes)))
    by apply where_gt_half_binary.
  eexists. split_and!; [exact Hbin | | reflexivity |].
  - rewrite <- app_assoc. cbn [app]. unfold Py.enumerate.
    by rewrite (enumerate_from_map_snd
                  (fun p => EvSaveMask (mask_filename prediction_path p))).
  - intros p [j Hj]%list_elem_of_lookup.
    apply (foldl_save_at_all_masks prediction_path _ _ (fs w) (Z.of_nat j, p));
      [done | done |].
    apply list_elem_of_lookup. exists j. unfold Py.enumerate.
    by rewrite enumerate_from_lookup, Hj.
Qed.

(** X12 on one sample tile. *)
Lemma X12_normal_return_witness :
  let r := process_batch Sample.ext_ok ["tiles/a.png"] Sample.two_class_model
             "out" (Sample.world_of Sample.fs_two_tiles) in
  r.2 = inr tt /\
  exists m, fs r.1 !! "out/a.png" = Some (File (Mask m)) /\ binary_mask m.
Proof.
  cbn zeta.
  assert (H : (process_batch Sample.ext_ok ["tiles/a.png"]
                 Sample.two_class_model "out"
                 (Sample.world_of Sample.fs_two_tiles)).2 = inr tt)
    by (vm_compute; reflexivity).
  split; [exact H |].
  destruct (X12_normal_return_saves_every_path Sample.ext_ok
              Sample.two_class_model ["tiles/a.png"] "out"
              (Sample.world_of Sample.fs_two_tiles) H)
    as (preds & _ & _ & _ & Hall).
  apply (Hall "tiles/a.png"). by left.
Defined.

(** X1 on one sample tile and the model that scores class 0 with 0 and
    class 1 with NaN: no score is greater than that of class 0, and yet
    pixel 0 is 1. *)
Lemma X1_background_witness :
  exists w' preds,
    infer Sample.ext_nan Sample.nan_model ["tiles/a.png"]
      (Sample.world_of Sample.fs_two_tiles) = (w', inr preds) /\
    (forall i, Sample.nan_leb (Some 0) (if i mod 2 =? 0 then Some 0 else None)
               = (i mod 2 =? 0)) /\
    item preds 0 = 1.
Proof.
  set (r := infer Sample.ext_nan Sample.nan_model ["tiles/a.png"]
              (Sample.world_of Sample.fs_two_tiles)).
  exists r.1, (match r.2 with inr preds => preds | inl _ => NdArray [] (fun _ => 0) end).
  assert (H : r = (r.1, inr (match r.2 with
                             | inr preds => preds
                             | inl _ => NdArray [] (fun _ => 0)
                             end)))
    by (vm_compute; reflexivity).
  split; [exact H |].
  split; [intros i; by destruct (i mod 2 =? 0) |].
  destruct (X1_background_unless_class0_beaten Sample.ext_nan
              Sample.nan_model ["tiles/a.png"]
              (Sample.world_of Sample.fs_two_tiles) _ _ H)
    as (loaded & images & scores & c & Hopen & Hresh & Hmodel & Hc & _ & Hall).
  injection Hopen as <-.
  injection Hresh as <-.
  injection Hmodel as <-.
  injection Hc as <-.
  apply (proj2 (Hall 0) eq_refl). split; reflexivity.
Defined.
